(** * autovideosrc: automatic detection of a video source

    A shallow embedding of [gst/autodetect/gstautovideosrc.c] and the
    properties of its selection algorithm: the registry predicate, the
    ranking comparator, the naming of trial instances, the probing loop,
    the fallback policy and the state-change handler.

    The GStreamer and GLib calls the file makes are collaborators; what
    they answer (does a factory create an element, what does a trial state
    change return, does re-targeting the ghost pad succeed ...) is gathered
    in a record [World], so that every theorem holds for every behaviour of
    the collaborators. *)

From Stdlib Require Import ZArith List String Ascii Bool Lia Arith.
From Stdlib Require Import Permutation Sorted.
Import ListNotations.
Open Scope string_scope.
Open Scope Z_scope.

(* ===================================================================== *)
(** ** C strings and the libc / GLib helpers the file calls *)
(* ===================================================================== *)

Module CString.

(** [strlen] *)
Definition strlen (s : string) : nat := String.length s.

(** [g_str_has_prefix (s, p)] *)
Fixpoint g_str_has_prefix (s p : string) {struct p} : bool :=
  match p with
  | EmptyString => true
  | String c p' =>
      match s with
      | EmptyString => false
      | String d s' => if Ascii.eqb c d then g_str_has_prefix s' p' else false
      end
  end.

(** The pointer [s + n]: the string from offset [n] on. *)
Fixpoint offset (n : nat) (s : string) : string :=
  match n with
  | O => s
  | S n' => match s with
            | EmptyString => EmptyString
            | String _ s' => offset n' s'
            end
  end.

(** The string cut by a NUL written at index [n] ([s[n] = '\0']). *)
Fixpoint truncate (n : nat) (s : string) : string :=
  match n with
  | O => EmptyString
  | S n' => match s with
            | EmptyString => EmptyString
            | String c s' => String c (truncate n' s')
            end
  end.

(** [g_str_has_suffix (s, x)]: GLib compares the lengths and then the
    tail of [s] with [x]. *)
Definition g_str_has_suffix (s x : string) : bool :=
  if (strlen s <? strlen x)%nat then false
  else String.eqb (offset (strlen s - strlen x) s) x.

(** [strstr (haystack, needle)]: the tail of [haystack] at the first
    occurrence of [needle], or NULL. *)
Fixpoint strstr (haystack needle : string) : option string :=
  if g_str_has_prefix haystack needle then Some haystack
  else match haystack with
       | EmptyString => None
       | String _ h' => strstr h' needle
       end.

Definition byte (c : ascii) : Z := Z.of_N (N_of_ascii c).

(** [strcmp]: the difference of the first two bytes that differ, read as
    unsigned char (the terminating NUL is byte 0).  Callers use only the
    sign. *)
Fixpoint strcmp (s1 s2 : string) : Z :=
  match s1, s2 with
  | EmptyString, EmptyString => 0
  | EmptyString, String c2 _ => 0 - byte c2
  | String c1 _, EmptyString => byte c1 - 0
  | String c1 r1, String c2 r2 =>
      if Ascii.eqb c1 c2 then strcmp r1 r2 else byte c1 - byte c2
  end.

End CString.
Import CString.

(* ===================================================================== *)
(** ** Machine integers: [guint] and [gint] are 32 bits wide *)
(* ===================================================================== *)

Definition guint_max : Z := 2 ^ 32.

(** Value of an integer expression evaluated in [guint]. *)
Definition to_guint (z : Z) : Z := z mod guint_max.

(** Conversion of a [guint] to [gint] (two's complement). *)
Definition to_gint (z : Z) : Z :=
  let m := z mod guint_max in
  if m <? 2 ^ 31 then m else m - guint_max.

(* ===================================================================== *)
(** ** Registry features *)
(* ===================================================================== *)

Inductive GType := GST_TYPE_ELEMENT_FACTORY | GST_TYPE_TYPE_FIND_FACTORY
                 | GST_TYPE_INDEX_FACTORY.

(** A [GstPluginFeature] as far as this file reads it.  [rank] is a
    [guint]; [klass] is the class string of an element factory. *)
Record GstPluginFeature := mkFeature {
  feature_type : GType;
  name : string;
  rank : Z;
  klass : string
}.

Definition GST_IS_ELEMENT_FACTORY (f : GstPluginFeature) : bool :=
  match feature_type f with
  | GST_TYPE_ELEMENT_FACTORY => true
  | _ => false
  end.

Definition gst_plugin_feature_get_rank (f : GstPluginFeature) : Z :=
  to_guint (rank f).
Definition gst_plugin_feature_get_name (f : GstPluginFeature) : string := name f.
Definition gst_element_factory_get_klass (f : GstPluginFeature) : string := klass f.

(** Modelled from the spec: [GST_RANK_MARGINAL], the "minimum rank
    threshold" of the registry query.  The enumeration [GstRank] is declared
    in GStreamer's gstpluginfeature.h, not in this file; its value there is
    64.  The statement about the registry predicate is in terms of the
    name, not of the value. *)
Definition GST_RANK_MARGINAL : Z := 64.

Definition is_some {A : Type} (o : option A) : bool :=
  match o with Some _ => true | None => false end.

(** [gst_auto_video_src_factory_filter (feature, data)].  [data] is the
    user pointer the registry hands back; the function never reads it. *)
Definition gst_auto_video_src_factory_filter {D : Type}
    (feature : GstPluginFeature) (data : D) : bool :=
  (* we only care about element factories *)
  if negb (GST_IS_ELEMENT_FACTORY feature) then false
  else
    (* video sources *)
    let klass := gst_element_factory_get_klass feature in
    if negb (is_some (strstr klass "Source") && is_some (strstr klass "Video"))
    then false
    else
      (* only select elements with autoplugging rank *)
      let rank := gst_plugin_feature_get_rank feature in
      if rank <? GST_RANK_MARGINAL then false
      else true.

(** [gst_auto_video_src_compare_ranks (f1, f2)]: the subtraction is done in
    [guint] and stored in a [gint]. *)
Definition gst_auto_video_src_compare_ranks (f1 f2 : GstPluginFeature) : Z :=
  let diff :=
    to_gint (to_guint (gst_plugin_feature_get_rank f2
                       - gst_plugin_feature_get_rank f1)) in
  if negb (diff =? 0) then diff
  else strcmp (gst_plugin_feature_get_name f2) (gst_plugin_feature_get_name f1).

(* ===================================================================== *)
(** ** Undefined behaviour *)
(* ===================================================================== *)

(** A C computation either has a value or is undefined (here: a write
    outside the allocated string). *)
Inductive outcome (A : Type) : Type :=
| Ok (a : A)
| Undefined.
Arguments Ok {A} a.
Arguments Undefined {A}.

Definition bind {A B : Type} (m : outcome A) (k : A -> outcome B) : outcome B :=
  match m with
  | Ok a => k a
  | Undefined => Undefined
  end.

Notation "x <- m ;; k" := (bind m (fun x => k))
  (at level 61, m at next level, right associativity).

(** The marker of [gst_auto_video_src_create_element_with_pretty_name]:
    [marker[strlen (marker) - 4] = '\0'] has [strlen (marker) - 4] computed
    in [size_t]; for a string shorter than four bytes the index wraps and
    the write lands outside the copy. *)
Definition pretty_marker (factory_name : string) : outcome string :=
  let marker := factory_name in
  marker <-
    (if g_str_has_suffix marker "src" then
       if (strlen marker <? 4)%nat then Undefined
       else Ok (truncate (strlen marker - 4) marker)
     else Ok marker) ;;
  let marker :=
    if g_str_has_prefix marker "gst" then offset 3 marker else marker in
  Ok marker.

(** [g_strdup_printf ("%s-actual-src-%s", GST_OBJECT_NAME (src), marker)] *)
Definition pretty_name (object_name factory_name : string) : outcome string :=
  marker <- pretty_marker factory_name ;;
  Ok (object_name ++ "-actual-src-" ++ marker).

(* ===================================================================== *)
(** ** GLib lists: [g_list_sort] *)
(* ===================================================================== *)

Section GList.
Context {A : Type}.
Variable compare_func : A -> A -> Z.

(** [g_list_sort_merge]: the head of [l1] is taken while
    [compare_func (l1->data, l2->data) <= 0]. *)
Fixpoint g_list_sort_merge (l1 : list A) : list A -> list A :=
  fix merge_l2 (l2 : list A) : list A :=
    match l1, l2 with
    | [], _ => l2
    | _, [] => l1
    | x :: l1', y :: l2' =>
        if compare_func x y <=? 0
        then x :: g_list_sort_merge l1' l2
        else y :: merge_l2 l2'
    end.

(** [g_list_sort_real]: the list is cut after its first [n / 2] cells
    (the slow pointer moves once for two moves of the fast one), both
    halves are sorted and merged.  [fuel] bounds the recursion depth. *)
Fixpoint g_list_sort_real (fuel : nat) (l : list A) : list A :=
  match fuel with
  | O => l
  | S fuel' =>
      match l with
      | [] => []
      | [x] => [x]
      | _ =>
          let half := (List.length l / 2)%nat in
          g_list_sort_merge (g_list_sort_real fuel' (firstn half l))
                            (g_list_sort_real fuel' (skipn half l))
      end
  end.

Definition g_list_sort (l : list A) : list A :=
  g_list_sort_real (List.length l) l.
End GList.

(* ===================================================================== *)
(** ** Elements, messages, the facade *)
(* ===================================================================== *)

Inductive GstState := GST_STATE_NULL | GST_STATE_READY
                    | GST_STATE_PAUSED | GST_STATE_PLAYING.

Inductive GstStateChangeReturn :=
| GST_STATE_CHANGE_FAILURE
| GST_STATE_CHANGE_SUCCESS
| GST_STATE_CHANGE_ASYNC
| GST_STATE_CHANGE_NO_PREROLL.

Inductive GstStateChange :=
| GST_STATE_CHANGE_NULL_TO_READY
| GST_STATE_CHANGE_READY_TO_PAUSED
| GST_STATE_CHANGE_PAUSED_TO_PLAYING
| GST_STATE_CHANGE_PLAYING_TO_PAUSED
| GST_STATE_CHANGE_PAUSED_TO_READY
| GST_STATE_CHANGE_READY_TO_NULL.

(** Caps are opaque here; they are carried in their string form and only
    handed to [gst_caps_can_intersect]. *)
Definition GstCaps := string.

Inductive GstMessageType :=
| GST_MESSAGE_ERROR | GST_MESSAGE_WARNING | GST_MESSAGE_STATE_CHANGED
| GST_MESSAGE_OTHER.

Record GstMessage := mkMessage {
  msg_type : GstMessageType;
  msg_src : string;          (* name of the object that created it *)
  msg_domain : string;
  msg_code : string;
  msg_debug : string
}.

Definition is_error (m : GstMessage) : bool :=
  match msg_type m with GST_MESSAGE_ERROR => true | _ => false end.

Definition is_warning (m : GstMessage) : bool :=
  match msg_type m with GST_MESSAGE_WARNING => true | _ => false end.

(** An element instance: the factory it comes from, its object name and
    the value of its "sync" property. *)
Record GstElement := mkElement {
  el_factory : string;
  el_name : string;
  el_sync : bool
}.

Definition element_eqb (a b : GstElement) : bool :=
  String.eqb (el_factory a) (el_factory b)
  && String.eqb (el_name a) (el_name b)
  && Bool.eqb (el_sync a) (el_sync b).

(** The Placeholder is an instance of fakesrc. *)
Definition is_fakesrc (e : GstElement) : bool := String.eqb (el_factory e) "fakesrc".

(** What the collaborators answer. *)
Record World := mkWorld {
  (* the features of the default registry, in the order the query walks them *)
  registry : list GstPluginFeature;
  (* gst_element_factory_create (factory, name) returns an element *)
  factory_create : GstPluginFeature -> string -> bool;
  (* gst_pad_get_caps of the new element's "src" pad *)
  src_pad_caps : GstPluginFeature -> GstCaps;
  gst_caps_can_intersect : GstCaps -> GstCaps -> bool;
  (* gst_element_set_state (el, GST_STATE_READY) and what el posts meanwhile *)
  trial_ready : GstPluginFeature -> GstStateChangeReturn;
  trial_messages : GstPluginFeature -> list GstMessage;
  (* what el posts while it is set back to GST_STATE_NULL *)
  null_messages : GstPluginFeature -> list GstMessage;
  (* the class of fakesrc has a "sync" property *)
  fakesrc_has_sync : bool;
  (* gst_ghost_pad_set_target links the ghost pad to the element's pad *)
  ghost_pad_link_ok : GstElement -> bool;
  (* gst_bin_remove unlinks the pads of the element it removes *)
  bin_remove_unlinks : bool;
  (* the change_state of the parent class, GstBin *)
  parent_change_state : GstStateChange -> GstStateChangeReturn
}.

(** [GstAutoVideoSrc].  [pad_target] is the element whose "src" pad is the
    target of the ghost pad [src->pad]; [children] are the elements of the
    bin; [posted] are the messages posted on the facade, oldest first. *)
Record GstAutoVideoSrc := mkSrc {
  object_name : string;
  kid : option GstElement;
  children : list GstElement;
  pad_target : option GstElement;
  filter_caps : option GstCaps;
  posted : list GstMessage
}.

Definition set_kid (src : GstAutoVideoSrc) (k : option GstElement) :=
  mkSrc (object_name src) k (children src) (pad_target src)
        (filter_caps src) (posted src).
Definition set_children (src : GstAutoVideoSrc) (c : list GstElement) :=
  mkSrc (object_name src) (kid src) c (pad_target src)
        (filter_caps src) (posted src).
Definition set_pad_target (src : GstAutoVideoSrc) (t : option GstElement) :=
  mkSrc (object_name src) (kid src) (children src) t
        (filter_caps src) (posted src).
Definition set_filter_caps (src : GstAutoVideoSrc) (c : option GstCaps) :=
  mkSrc (object_name src) (kid src) (children src) (pad_target src)
        c (posted src).

(** [gst_element_post_message (GST_ELEMENT (src), m)] *)
Definition gst_element_post_message (src : GstAutoVideoSrc) (m : GstMessage) :=
  mkSrc (object_name src) (kid src) (children src) (pad_target src)
        (filter_caps src) (posted src ++ [m]).

(** [GST_ELEMENT_ERROR (src, domain, code, (NULL), (debug))] *)
Definition GST_ELEMENT_ERROR (src : GstAutoVideoSrc) (domain code debug : string) :=
  gst_element_post_message src
    (mkMessage GST_MESSAGE_ERROR (object_name src) domain code debug).

(** [GST_ELEMENT_WARNING (src, domain, code, (NULL), (debug))] *)
Definition GST_ELEMENT_WARNING (src : GstAutoVideoSrc) (domain code debug : string) :=
  gst_element_post_message src
    (mkMessage GST_MESSAGE_WARNING (object_name src) domain code debug).

(** [gst_element_factory_make ("fakesrc", name)]; "sync" is off by default.
    The code uses what the call returns without a test for NULL (reset,
    and the fallback of find_best); the element is taken to exist, as the
    code takes it. *)
Definition make_fakesrc (name : string) : GstElement :=
  mkElement "fakesrc" name false.

Definition gst_bin_add (src : GstAutoVideoSrc) (e : GstElement) :=
  set_children src (children src ++ [e]).

Definition gst_bin_remove (w : World) (src : GstAutoVideoSrc) (e : GstElement) :=
  let src := set_children src
               (List.filter (fun c => negb (element_eqb c e)) (children src)) in
  match pad_target src with
  | Some t => if bin_remove_unlinks w && element_eqb t e
              then set_pad_target src None else src
  | None => src
  end.

(** [gst_ghost_pad_set_target (GST_GHOST_PAD (src->pad), pad of e)]: the old
    target is dropped; when the link to the new one fails the ghost pad is
    left without a target and FALSE is returned. *)
Definition gst_ghost_pad_set_target (w : World) (src : GstAutoVideoSrc)
    (e : GstElement) : bool * GstAutoVideoSrc :=
  if ghost_pad_link_ok w e then (true, set_pad_target src (Some e))
  else (false, set_pad_target src None).

(** [gst_auto_video_src_clear_kid] *)
Definition gst_auto_video_src_clear_kid (w : World) (src : GstAutoVideoSrc)
    : GstAutoVideoSrc :=
  match kid src with
  | Some k =>
      (* gst_element_set_state (src->kid, GST_STATE_NULL) *)
      let src := gst_bin_remove w src k in
      set_kid src None
  | None => src
  end.

(** [gst_auto_video_src_dispose], up to the call of the parent class. *)
Definition gst_auto_video_src_dispose (w : World) (src : GstAutoVideoSrc)
    : GstAutoVideoSrc :=
  let src := gst_auto_video_src_clear_kid w src in
  mkSrc (object_name src) (kid src) (children src) (pad_target src)
        None (posted src).

(** [gst_auto_video_src_reset]: the result of re-targeting is not looked at. *)
Definition gst_auto_video_src_reset (w : World) (src : GstAutoVideoSrc)
    : GstAutoVideoSrc :=
  (* Remove any existing element *)
  let src := gst_auto_video_src_clear_kid w src in
  (* fakesrc placeholder *)
  let k := make_fakesrc "tempsrc" in
  let src := set_kid src (Some k) in
  let src := gst_bin_add src k in
  (* pad *)
  snd (gst_ghost_pad_set_target w src k).

Definition raw_caps : GstCaps := "video/x-raw-yuv; video/x-raw-rgb".

(** [gst_auto_video_src_init] on a fresh object called [obj_name]. *)
Definition gst_auto_video_src_init (w : World) (obj_name : string)
    : GstAutoVideoSrc :=
  (* gst_ghost_pad_new_no_target *)
  let src := mkSrc obj_name None [] None None [] in
  let src := gst_auto_video_src_reset w src in
  (* set the default raw video caps *)
  set_filter_caps src (Some raw_caps).

(** Property ids. *)
Inductive prop_id := PROP_0 | PROP_CAPS | PROP_UNKNOWN (n : nat).

(** [gst_auto_video_src_set_property]: the old caps are dropped and a
    [gst_caps_copy] of the value is stored; the value may hold no caps
    (NULL). *)
Definition gst_auto_video_src_set_property (src : GstAutoVideoSrc)
    (id : prop_id) (value : option GstCaps) : GstAutoVideoSrc :=
  match id with
  | PROP_CAPS => set_filter_caps src value
  | _ => src   (* G_OBJECT_WARN_INVALID_PROPERTY_ID *)
  end.

(** [gst_auto_video_src_get_property] *)
Definition gst_auto_video_src_get_property (src : GstAutoVideoSrc)
    (id : prop_id) : option GstCaps :=
  match id with
  | PROP_CAPS => filter_caps src
  | _ => None
  end.

(* ===================================================================== *)
(** ** The prober *)
(* ===================================================================== *)

(** [gst_auto_video_src_create_element_with_pretty_name]: NULL when the
    factory creates nothing. *)
Definition gst_auto_video_src_create_element_with_pretty_name
    (w : World) (src : GstAutoVideoSrc) (factory : GstPluginFeature)
    : outcome (option GstElement) :=
  nm <- pretty_name (object_name src) (name factory) ;;
  if factory_create w factory nm
  then Ok (Some (mkElement (name factory) nm false))
  else Ok None.

(** What the prober does to a candidate, in the order it does it. *)
Inductive ProbeEvent :=
| EvCreate (f : GstPluginFeature) (created : bool)
| EvCapsCheck (f : GstPluginFeature) (filter : GstCaps) (can_intersect : bool)
| EvSetReady (f : GstPluginFeature) (ret : GstStateChangeReturn)
| EvSetNull (f : GstPluginFeature)
| EvUnref (f : GstPluginFeature).

(** The locals of [gst_auto_video_src_find_best] that live across the
    loop: [choice], [errors], the private [bus]; and the events so far. *)
Record ProbeState := mkProbe {
  choice : option GstElement;
  errors : list GstMessage;
  bus : list GstMessage;
  events : list ProbeEvent
}.

Definition probe_start : ProbeState := mkProbe None [] [] [].

Definition log (st : ProbeState) (e : ProbeEvent) : ProbeState :=
  mkProbe (choice st) (errors st) (bus st) (events st ++ [e]).

(** How an iteration of the [for] loop ends: [break], or on to
    [item->next] (by [continue] or by reaching the end of the body). *)
Inductive control := Break | Next.

Definition is_success (r : GstStateChangeReturn) : bool :=
  match r with GST_STATE_CHANGE_SUCCESS => true | _ => false end.

(** From [gst_element_set_bus (el, bus)] to the end of the loop body. *)
Definition trial_activation (w : World) (f : GstPluginFeature) (el : GstElement)
    (st : ProbeState) : control * ProbeState :=
  let ret := trial_ready w f in
  let st := mkProbe (choice st) (errors st) (bus st ++ trial_messages w f)
                    (events st ++ [EvSetReady f ret]) in
  if is_success ret then
    (Break, mkProbe (Some el) (errors st) (bus st) (events st))
  else
    (* collect all error messages: gst_bus_pop_filtered drops the others *)
    let st := mkProbe (choice st) (errors st ++ List.filter is_error (bus st))
                      [] (events st) in
    (* gst_element_set_state (el, GST_STATE_NULL); gst_object_unref (el) *)
    let st := mkProbe (choice st) (errors st) (bus st ++ null_messages w f)
                      (events st ++ [EvSetNull f; EvUnref f]) in
    (Next, st).

(** The body of the [for] loop for the list cell holding [f]. *)
Definition probe_candidate (w : World) (src : GstAutoVideoSrc)
    (f : GstPluginFeature) (st : ProbeState) : outcome (control * ProbeState) :=
  el <- gst_auto_video_src_create_element_with_pretty_name w src f ;;
  match el with
  | Some el =>
      let st := log st (EvCreate f true) in
      match filter_caps src with
      | Some fc =>
          let el_caps := src_pad_caps w f in
          let no_match := negb (gst_caps_can_intersect w fc el_caps) in
          let st := log st (EvCapsCheck f fc (negb no_match)) in
          if no_match then
            (* gst_object_unref (el); continue *)
            Ok (Next, log st (EvUnref f))
          else Ok (trial_activation w f el st)
      | None => Ok (trial_activation w f el st)
      end
  | None => Ok (Next, log st (EvCreate f false))
  end.

(** [for (item = list; item != NULL; item = item->next)] *)
Fixpoint find_best_loop (w : World) (src : GstAutoVideoSrc)
    (items : list GstPluginFeature) (st : ProbeState) : outcome ProbeState :=
  match items with
  | [] => Ok st
  | f :: next =>
      r <- probe_candidate w src f st ;;
      match fst r with
      | Break => Ok (snd r)
      | Next => find_best_loop w src next (snd r)
      end
  end.

(** [gst_registry_feature_filter (registry, filter, FALSE, data)]: the
    features the filter accepts, none added, none reordered. *)
Definition gst_registry_feature_filter {D : Type} (w : World)
    (filter : GstPluginFeature -> D -> bool) (data : D) : list GstPluginFeature :=
  List.filter (fun f => filter f data) (registry w).

(** The sorted list the loop walks. *)
Definition candidates (w : World) (src : GstAutoVideoSrc) : list GstPluginFeature :=
  let list := gst_registry_feature_filter w gst_auto_video_src_factory_filter src in
  g_list_sort gst_auto_video_src_compare_ranks list.

(** The state of the locals at "done trying". *)
Definition probe (w : World) (src : GstAutoVideoSrc) : outcome ProbeState :=
  find_best_loop w src (candidates w src) probe_start.

(** After the loop: the choice and the facade with what was posted on it. *)
Definition select (w : World) (src : GstAutoVideoSrc) (st : ProbeState)
    : option GstElement * GstAutoVideoSrc :=
  match choice st with
  | Some el => (Some el, src)
  | None =>
      match errors st with
      | first :: _ =>
          (* we forward the first error for now *)
          (None, gst_element_post_message src first)
      | [] =>
          (* send warning message to application and use a fakesrc *)
          let src := GST_ELEMENT_WARNING src "RESOURCE" "NOT_FOUND"
                       "Failed to find a usable video source" in
          let el := make_fakesrc "fake-video-src" in
          let el := if fakesrc_has_sync w
                    then mkElement (el_factory el) (el_name el) true else el in
          (* gst_element_set_state (choice, GST_STATE_READY) *)
          (Some el, src)
      end
  end.

(** [gst_auto_video_src_find_best] *)
Definition gst_auto_video_src_find_best (w : World) (src : GstAutoVideoSrc)
    : outcome (option GstElement * GstAutoVideoSrc) :=
  st <- probe w src ;;
  Ok (select w src st).

(** [gst_auto_video_src_detect] *)
Definition gst_auto_video_src_detect (w : World) (src : GstAutoVideoSrc)
    : outcome (bool * GstAutoVideoSrc) :=
  let src := gst_auto_video_src_clear_kid w src in
  (* find element *)
  r <- gst_auto_video_src_find_best w src ;;
  match fst r with
  | None =>
      (* no_src *)
      Ok (false, GST_ELEMENT_ERROR (snd r) "LIBRARY" "INIT"
                   "Failed to find a supported video source")
  | Some esrc =>
      let src := set_kid (snd r) (Some esrc) in
      let src := gst_bin_add src esrc in
      (* attach ghost pad *)
      let t := gst_ghost_pad_set_target w src esrc in
      if fst t then Ok (true, snd t)
      else
        (* target_failed *)
        Ok (false, GST_ELEMENT_ERROR (snd t) "LIBRARY" "INIT"
                     "Failed to set target pad")
  end.

(** [gst_auto_video_src_change_state], from the call of the parent class
    on. *)
Definition change_state_chain_up (w : World) (src : GstAutoVideoSrc)
    (transition : GstStateChange) : GstStateChangeReturn * GstAutoVideoSrc :=
  let ret := parent_change_state w transition in
  match transition with
  | GST_STATE_CHANGE_READY_TO_NULL => (ret, gst_auto_video_src_reset w src)
  | _ => (ret, src)
  end.

(** [gst_auto_video_src_change_state] *)
Definition gst_auto_video_src_change_state (w : World) (src : GstAutoVideoSrc)
    (transition : GstStateChange) : outcome (GstStateChangeReturn * GstAutoVideoSrc) :=
  match transition with
  | GST_STATE_CHANGE_NULL_TO_READY =>
      d <- gst_auto_video_src_detect w src ;;
      if negb (fst d) then Ok (GST_STATE_CHANGE_FAILURE, snd d)
      else Ok (change_state_chain_up w (snd d) transition)
  | _ => Ok (change_state_chain_up w src transition)
  end.

(* ===================================================================== *)
(** ** What the specification says, in its own words *)
(* ===================================================================== *)

Module Spec.

(** "contains": the class string has the word somewhere inside. *)
Definition contains (s word : string) : Prop :=
  exists before after, s = before ++ word ++ after.

(** "ends in" and "starts with". *)
Definition ends_in (s x : string) : bool :=
  String.eqb (substring (String.length s - String.length x) (String.length x) s) x.
Definition starts_with (s x : string) : bool := String.prefix x s.

(** "removing its last [n] characters" / "removing that [n]-character
    prefix". *)
Definition remove_last (n : nat) (s : string) : string :=
  substring 0 (String.length s - n) s.
Definition remove_first (n : nat) (s : string) : string :=
  substring n (String.length s - n) s.

(** The marker: first the suffix rule, then the prefix rule. *)
Definition marker (factory_name : string) : string :=
  let m := if ends_in factory_name "src"
           then remove_last 4 factory_name else factory_name in
  if starts_with m "gst" then remove_first 3 m else m.

(** Rank descending, ties by name descending: [f1] goes strictly before
    [f2]. *)
Definition name_lt (a b : string) : Prop := strcmp a b < 0.
Definition precedes (f1 f2 : GstPluginFeature) : Prop :=
  rank f1 > rank f2 \/ (rank f1 = rank f2 /\ name_lt (name f2) (name f1)).

End Spec.

(* ===================================================================== *)
(** ** Observations on a run of the prober *)
(* ===================================================================== *)

(** The factories [gst_element_factory_create] was called on, in order. *)
Definition created (evs : list ProbeEvent) : list GstPluginFeature :=
  flat_map (fun e => match e with EvCreate f _ => [f] | _ => [] end) evs.

(** The factories whose element was driven to READY, in order. *)
Definition trials (evs : list ProbeEvent) : list GstPluginFeature :=
  flat_map (fun e => match e with EvSetReady f _ => [f] | _ => [] end) evs.

(** Does the trial activation of [f] succeed: an element is created, it
    passes the caps filter if one is set, and it reaches READY. *)
Definition trial_succeeds (w : World) (src : GstAutoVideoSrc)
    (f : GstPluginFeature) : outcome bool :=
  el <- gst_auto_video_src_create_element_with_pretty_name w src f ;;
  Ok (match el with
      | None => false
      | Some _ =>
          match filter_caps src with
          | Some fc => gst_caps_can_intersect w fc (src_pad_caps w f)
          | None => true
          end && is_success (trial_ready w f)
      end).

(** Every created element has its caps checked against the filter. *)
Definition all_checked (w : World) (fc : GstCaps) (evs : list ProbeEvent) : Prop :=
  forall g, In (EvCreate g true) evs ->
    In (EvCapsCheck g fc (gst_caps_can_intersect w fc (src_pad_caps w g))) evs.

(** The error of the [target_failed] exit. *)
Definition target_failed (src : GstAutoVideoSrc) : GstMessage :=
  mkMessage GST_MESSAGE_ERROR (object_name src) "LIBRARY" "INIT"
            "Failed to set target pad".

(** The error of the [no_src] exit. *)
Definition no_src (src : GstAutoVideoSrc) : GstMessage :=
  mkMessage GST_MESSAGE_ERROR (object_name src) "LIBRARY" "INIT"
            "Failed to find a supported video source".

(** The warning of the fallback. *)
Definition not_found (src : GstAutoVideoSrc) : GstMessage :=
  mkMessage GST_MESSAGE_WARNING (object_name src) "RESOURCE" "NOT_FOUND"
            "Failed to find a usable video source".

(** The fallback element: a fakesrc called "fake-video-src", with "sync"
    set when the class has that property. *)
Definition fallback (w : World) : GstElement :=
  mkElement "fakesrc" "fake-video-src" (fakesrc_has_sync w).

(** The placeholder of [gst_auto_video_src_reset]. *)
Definition tempsrc : GstElement := make_fakesrc "tempsrc".

(** The facade has a Placeholder as its kid. *)
Definition placeholder_bound (src : GstAutoVideoSrc) : Prop :=
  exists k, kid src = Some k /\ is_fakesrc k = true.

(** The ghost pad targets the pad of the kid. *)
Definition targets_kid (src : GstAutoVideoSrc) : Prop :=
  exists k, kid src = Some k /\ pad_target src = Some k.

(* ===================================================================== *)
(** ** Sample registries and collaborators *)
(* ===================================================================== *)

(** A factory whose rank an application has forced to the largest [guint],
    and an ordinary primary one. *)
Definition forced_src : GstPluginFeature :=
  mkFeature GST_TYPE_ELEMENT_FACTORY "forcedsrc" 4294967295 "Source/Video".
Definition v4l2_src : GstPluginFeature :=
  mkFeature GST_TYPE_ELEMENT_FACTORY "v4l2src" 256 "Source/Video".

(** The facade with the detected element v4l2src bound. *)
Definition bound_to_v4l2 : GstAutoVideoSrc :=
  let el := mkElement "v4l2src" "autovideosrc0-actual-src-v4l" false in
  mkSrc "autovideosrc0" (Some el) [el] (Some el) (Some raw_caps) [].

Module Sample.

Definition drvA : GstPluginFeature :=
  mkFeature GST_TYPE_ELEMENT_FACTORY "drvA" 128 "Source/Video".
Definition drvB : GstPluginFeature :=
  mkFeature GST_TYPE_ELEMENT_FACTORY "drvB" 64 "Source/Video".
Definition h264cam : GstPluginFeature :=
  mkFeature GST_TYPE_ELEMENT_FACTORY "h264cam" 256 "Source/Video/Hardware".
Definition alsasrc : GstPluginFeature :=
  mkFeature GST_TYPE_ELEMENT_FACTORY "alsasrc" 256 "Source/Audio".

Definition busy : GstMessage :=
  mkMessage GST_MESSAGE_ERROR "autovideosrc0-actual-src-drvA"
            "RESOURCE" "BUSY" "Device is busy".
Definition state_changed : GstMessage :=
  mkMessage GST_MESSAGE_STATE_CHANGED "autovideosrc0-actual-src-drvA"
            EmptyString EmptyString EmptyString.

(** drvA fails to open its device and posts an error, every other factory
    reaches READY; h264cam produces only H.264; caps intersect when the
    filter mentions the media type. *)
Definition world (reg : list GstPluginFeature) (link_ok : GstElement -> bool)
    : World :=
  mkWorld reg
    (fun _ _ => true)
    (fun f => if String.eqb (name f) "h264cam" then "video/x-h264"
              else "video/x-raw-yuv")
    (fun fc caps => is_some (strstr fc caps))
    (fun f => if String.eqb (name f) "drvA" then GST_STATE_CHANGE_FAILURE
              else GST_STATE_CHANGE_SUCCESS)
    (fun f => if String.eqb (name f) "drvA" then [state_changed; busy] else [])
    (fun _ => [])
    true
    link_ok
    true
    (fun _ => GST_STATE_CHANGE_SUCCESS).

Definition always (_ : GstElement) : bool := true.

(** Linking the ghost pad fails for the fallback element only. *)
Definition not_the_fallback (e : GstElement) : bool :=
  negb (String.eqb (el_name e) "fake-video-src").

Definition two_drivers : World := world [alsasrc; drvB; drvA] always.
Definition only_drvA : World := world [drvA; alsasrc] always.
Definition with_h264 : World := world [drvB; h264cam] always.
Definition nothing : World := world [alsasrc] always.
Definition nothing_unlinkable : World := world [alsasrc] not_the_fallback.

Definition facade (w : World) : GstAutoVideoSrc :=
  gst_auto_video_src_init w "autovideosrc0".

End Sample.

(* ===================================================================== *)
(** ** Vocabulary for the properties of the remaining code *)
(* ===================================================================== *)

(** A C string holds no NUL byte before its end. *)
Fixpoint no_nul (s : string) : Prop :=
  match s with
  | EmptyString => True
  | String c s' => c <> Ascii.zero /\ no_nul s'
  end.

(** A feature whose rank does not reach the sign bit of a [gint] and whose
    name is a C string. *)
Definition plain_feature (f : GstPluginFeature) : Prop :=
  0 <= rank f < 2 ^ 31 /\ no_nul (name f).

(** [f1] may stand before [f2]: higher rank, or the same rank and a name
    that is not smaller. *)
Definition not_after (f1 f2 : GstPluginFeature) : Prop :=
  rank f1 > rank f2 \/ (rank f1 = rank f2 /\ strcmp (name f2) (name f1) <= 0).

(** The factories that gave an element, those whose caps were checked,
    those set back to NULL and those released, in order. *)
Definition created_ok (evs : list ProbeEvent) : list GstPluginFeature :=
  flat_map (fun e => match e with EvCreate f true => [f] | _ => [] end) evs.
Definition caps_checked (evs : list ProbeEvent) : list GstPluginFeature :=
  flat_map (fun e => match e with EvCapsCheck f _ _ => [f] | _ => [] end) evs.
Definition set_null (evs : list ProbeEvent) : list GstPluginFeature :=
  flat_map (fun e => match e with EvSetNull f => [f] | _ => [] end) evs.
Definition unreffed (evs : list ProbeEvent) : list GstPluginFeature :=
  flat_map (fun e => match e with EvUnref f => [f] | _ => [] end) evs.

(** The number of elements the prober holds on to: one when it has made
    its choice. *)
Definition held (st : ProbeState) : nat :=
  match choice st with Some _ => 1%nat | None => 0%nat end.

(** A candidate the loop passes over without a trial: its factory creates
    nothing, or its caps do not intersect the filter. *)
Definition skipped (w : World) (src : GstAutoVideoSrc) (f : GstPluginFeature)
    : bool :=
  match gst_auto_video_src_create_element_with_pretty_name w src f with
  | Ok (Some _) =>
      match filter_caps src with
      | Some fc => negb (gst_caps_can_intersect w fc (src_pad_caps w f))
      | None => false
      end
  | Ok None => true
  | Undefined => false
  end.

(** What the loop body logs before it tries an element: the creation, and
    the caps check it passed when a filter is set. *)
Definition before_trial (w : World) (src : GstAutoVideoSrc)
    (f : GstPluginFeature) (pre : list ProbeEvent) : Prop :=
  (filter_caps src = None /\ pre = [EvCreate f true])
  \/ exists fc, filter_caps src = Some fc
       /\ gst_caps_can_intersect w fc (src_pad_caps w f) = true
       /\ pre = [EvCreate f true; EvCapsCheck f fc true].

(** A message one of the factories of [items] posts on the private bus,
    while it is driven to READY or while it is set back to NULL. *)
Definition posted_by (w : World) (items : list GstPluginFeature)
    (m : GstMessage) : Prop :=
  exists f, In f items /\ (In m (trial_messages w f) \/ In m (null_messages w f)).

(** Two states of the prober's locals that differ in the event log only. *)
Definition same_locals (a b : ProbeState) : Prop :=
  choice a = choice b /\ errors a = errors b /\ bus a = bus b.

(** The bin holds the kid and nothing else. *)
Definition bin_holds_kid (src : GstAutoVideoSrc) : Prop :=
  children src = match kid src with Some k => [k] | None => [] end.

(* ===================================================================== *)
(** ** The ordered error list, the caps checks, further samples *)
(* ===================================================================== *)




(** The caps checks of a run: the factory, the filter and the answer of
    [gst_caps_can_intersect], in order. *)
Definition caps_checks (evs : list ProbeEvent)
    : list (GstPluginFeature * GstCaps * bool) :=
  flat_map (fun e => match e with
                     | EvCapsCheck f fc b => [(f, fc, b)]
                     | _ => []
                     end) evs.

(** The same collaborators, with another parent class. *)
Definition with_parent (w : World)
    (parent : GstStateChange -> GstStateChangeReturn) : World :=
  mkWorld (registry w) (factory_create w) (src_pad_caps w)
    (gst_caps_can_intersect w) (trial_ready w) (trial_messages w)
    (null_messages w) (fakesrc_has_sync w) (ghost_pad_link_ok w)
    (bin_remove_unlinks w) parent.

Module Outage.

(** No device can be opened.  The camera of highest rank fails without a
    word; drvA reports two errors, drvC one. *)
Definition mutecam : GstPluginFeature :=
  mkFeature GST_TYPE_ELEMENT_FACTORY "mutecam" 256 "Source/Video".
Definition drvC : GstPluginFeature :=
  mkFeature GST_TYPE_ELEMENT_FACTORY "drvC" 64 "Source/Video".

Definition no_device : GstMessage :=
  mkMessage GST_MESSAGE_ERROR "autovideosrc0-actual-src-drvA"
            "RESOURCE" "NOT_FOUND" "No such device".
Definition denied : GstMessage :=
  mkMessage GST_MESSAGE_ERROR "autovideosrc0-actual-src-drvC"
            "RESOURCE" "OPEN_READ" "Permission denied".

Definition world : World :=
  mkWorld [drvC; Sample.alsasrc; mutecam; Sample.drvA]
    (fun _ _ => true)
    (fun _ => "video/x-raw-yuv")
    (fun fc caps => is_some (strstr fc caps))
    (fun f => if String.eqb (name f) "mutecam" then GST_STATE_CHANGE_ASYNC
              else GST_STATE_CHANGE_FAILURE)
    (fun f => if String.eqb (name f) "drvA"
              then [Sample.state_changed; Sample.busy; no_device]
              else if String.eqb (name f) "drvC" then [denied]
              else [Sample.state_changed])
    (fun _ => [])
    true
    Sample.always
    true
    (fun _ => GST_STATE_CHANGE_SUCCESS).

Definition facade : GstAutoVideoSrc := gst_auto_video_src_init world "autovideosrc0".

End Outage.

(* ===================================================================== *)
(** ** Facts about the string helpers *)
(* ===================================================================== *)

Section StringFacts.

Lemma has_prefix_app (s p : string) :
  g_str_has_prefix s p = true <-> exists rest, s = p ++ rest.
Proof.
  revert s; induction p as [|c p IH]; intros s; simpl.
  - split; [intros _; now exists s | reflexivity].
  - destruct s as [|d s].
    + split; [discriminate | intros [r Hr]; discriminate].
    + destruct (Ascii.eqb_spec c d) as [->|Hne].
      * rewrite IH. split; intros [r Hr].
        -- exists r. now rewrite Hr.
        -- exists r. now injection Hr.
      * split; [discriminate|]. intros [r Hr]. injection Hr as H1 _.
        now elim Hne.
Qed.

Lemma has_prefix_stdlib (s p : string) :
  g_str_has_prefix s p = String.prefix p s.
Proof.
  revert s; induction p as [|c p IH]; intros [|d s]; simpl; try reflexivity.
  destruct (Ascii.eqb_spec c d) as [->|Hne];
    destruct (ascii_dec _ d) as [E|E]; subst; auto; contradiction.
Qed.

Lemma strstr_contains (h n : string) :
  is_some (strstr h n) = true <-> Spec.contains h n.
Proof.
  unfold Spec.contains. induction h as [|c h IH].
  - simpl. destruct (g_str_has_prefix EmptyString n) eqn:E.
    + apply has_prefix_app in E as [r Hr]. split; [|reflexivity].
      intros _. exists EmptyString, r. exact Hr.
    + split; [discriminate|]. intros ([|b before] & after & H).
      * assert (g_str_has_prefix EmptyString n = true)
          by (apply has_prefix_app; now exists after).
        congruence.
      * discriminate.
  - cbn [strstr]. destruct (g_str_has_prefix (String c h) n) eqn:E.
    + apply has_prefix_app in E as [r Hr]. split; [|reflexivity].
      intros _. exists EmptyString, r. exact Hr.
    + rewrite IH. split.
      * intros (before & after & H). exists (String c before), after.
        simpl. now rewrite H.
      * intros ([|b before] & after & H).
        -- assert (g_str_has_prefix (String c h) n = true)
             by (apply has_prefix_app; now exists after).
           congruence.
        -- simpl in H. injection H as _ H. now exists before, after.
Qed.

Lemma truncate_substring (k : nat) (s : string) :
  truncate k s = substring 0 k s.
Proof.
  revert s; induction k as [|k IH]; intros [|c s]; simpl; auto.
  now rewrite IH.
Qed.

Lemma substring_whole (s : string) : substring 0 (String.length s) s = s.
Proof. induction s; simpl; congruence. Qed.

Lemma offset_substring (k : nat) (s : string) :
  offset k s = substring k (String.length s - k) s.
Proof.
  revert s; induction k as [|k IH]; intros s.
  - cbn [offset]. rewrite Nat.sub_0_r. now rewrite substring_whole.
  - destruct s as [|c s]; simpl; auto.
Qed.

Lemma substring_short (m : nat) (s : string) :
  (String.length s <= m)%nat -> substring 0 m s = s.
Proof.
  revert m; induction s as [|c s IH]; intros [|m] H; simpl in *; auto; try lia.
  rewrite IH; auto; lia.
Qed.

Lemma has_suffix_ends_in (s x : string) :
  g_str_has_suffix s x = Spec.ends_in s x.
Proof.
  unfold g_str_has_suffix, Spec.ends_in, strlen.
  destruct (Nat.ltb_spec (String.length s) (String.length x)) as [Hlt|Hge].
  - replace (String.length s - String.length x)%nat with 0%nat by lia.
    rewrite substring_short by lia.
    symmetry. apply String.eqb_neq. intros ->. lia.
  - rewrite offset_substring. do 2 f_equal. lia.
Qed.

End StringFacts.

(* ===================================================================== *)
(** ** The sort does not run out of fuel *)
(* ===================================================================== *)

Section SortFuel.
Context {A : Type}.
Variable compare_func : A -> A -> Z.

Lemma half_shorter (n : nat) : (2 <= n -> n / 2 < n /\ n - n / 2 < n /\ 0 < n / 2)%nat.
Proof.
  intros H. pose proof (Nat.div_lt n 2 ltac:(lia) ltac:(lia)).
  assert (1 <= n / 2)%nat by (apply Nat.div_le_lower_bound; lia). lia.
Qed.

(** Any fuel that covers the length gives the same list. *)
Lemma g_list_sort_real_fuel (fuel1 : nat) :
  forall (fuel2 : nat) (l : list A),
    (List.length l <= fuel1)%nat -> (List.length l <= fuel2)%nat ->
    g_list_sort_real compare_func fuel1 l = g_list_sort_real compare_func fuel2 l.
Proof.
  induction fuel1 as [|fuel1 IH]; intros fuel2 l H1 H2.
  - destruct l; [|simpl in H1; lia]. destruct fuel2; reflexivity.
  - destruct fuel2 as [|fuel2].
    + destruct l; [reflexivity | simpl in H2; lia].
    + destruct l as [|x [|y l]]; try reflexivity.
      cbn [g_list_sort_real].
      set (n := List.length (x :: y :: l)) in *.
      assert (Hn : (2 <= n)%nat) by (unfold n; simpl; lia).
      destruct (half_shorter n Hn) as (Ha & Hb & Hc).
      assert (L1 : (List.length (firstn (n / 2) (x :: y :: l)) < n)%nat).
      { rewrite length_firstn. fold n. lia. }
      assert (L2 : (List.length (skipn (n / 2) (x :: y :: l)) < n)%nat).
      { rewrite length_skipn. fold n. lia. }
      rewrite (IH fuel2 (firstn (n / 2) (x :: y :: l))) by lia.
      rewrite (IH fuel2 (skipn (n / 2) (x :: y :: l))) by lia.
      reflexivity.
Qed.

Corollary g_list_sort_enough_fuel (fuel : nat) (l : list A) :
  (List.length l <= fuel)%nat ->
  g_list_sort_real compare_func fuel l = g_list_sort compare_func l.
Proof. intros H. unfold g_list_sort. now apply g_list_sort_real_fuel. Qed.

End SortFuel.

(* ===================================================================== *)
(** ** The registry predicate *)
(* ===================================================================== *)

Lemma registry_query_members {D : Type} (w : World) (data : D) (f : GstPluginFeature) :
  In f (gst_registry_feature_filter w gst_auto_video_src_factory_filter data) <->
  In f (registry w) /\ gst_auto_video_src_factory_filter f data = true.
Proof. unfold gst_registry_feature_filter. apply filter_In. Qed.

Lemma factory_filter_ignores_data {D E : Type} (f : GstPluginFeature) (d : D) (e : E) :
  gst_auto_video_src_factory_filter f d = gst_auto_video_src_factory_filter f e.
Proof. reflexivity. Qed.

(** C8. The registry predicate accepts a feature exactly when it is an
    element factory, its class string contains both "Source" and "Video",
    and its rank is at least GST_RANK_MARGINAL.  The answer is a function
    of the feature alone (the user pointer is not read, nothing is
    written), and the query keeps the accepted features of the registry as
    they come: it is the registry list with the rejected features left
    out. *)
Theorem factory_filter_accepts_iff :
  forall (D : Type) (feature : GstPluginFeature) (data : D),
    (gst_auto_video_src_factory_filter feature data = true <->
       feature_type feature = GST_TYPE_ELEMENT_FACTORY
       /\ Spec.contains (klass feature) "Source"
       /\ Spec.contains (klass feature) "Video"
       /\ GST_RANK_MARGINAL <= gst_plugin_feature_get_rank feature)
    /\ (forall (E : Type) (other : E),
          gst_auto_video_src_factory_filter feature other
          = gst_auto_video_src_factory_filter feature data)
    /\ (forall w : World,
          gst_registry_feature_filter w gst_auto_video_src_factory_filter data
          = List.filter (fun f => gst_auto_video_src_factory_filter f data)
                        (registry w)).
Proof.
  intros D feature data. split; [|split; reflexivity].
  unfold gst_auto_video_src_factory_filter, GST_IS_ELEMENT_FACTORY,
    gst_element_factory_get_klass.
  rewrite <- !strstr_contains.
  destruct (feature_type feature); simpl;
    try (split; [discriminate | intros [H _]; discriminate]).
  destruct (is_some (strstr (klass feature) "Source")); simpl;
    [|split; [discriminate | intros (_ & H & _); discriminate]].
  destruct (is_some (strstr (klass feature) "Video")); simpl;
    [|split; [discriminate | intros (_ & _ & H & _); discriminate]].
  destruct (Z.ltb_spec (gst_plugin_feature_get_rank feature) GST_RANK_MARGINAL).
  - split; [discriminate | intros (_ & _ & _ & H'); lia].
  - split; auto.
Qed.

Example factory_filter_v4l2src :
  gst_auto_video_src_factory_filter
    (mkFeature GST_TYPE_ELEMENT_FACTORY "v4l2src" 256 "Source/Video") tt = true.
Proof. reflexivity. Qed.

Example factory_filter_low_rank :
  gst_auto_video_src_factory_filter
    (mkFeature GST_TYPE_ELEMENT_FACTORY "videotestsrc" 0 "Source/Video") tt = false.
Proof. reflexivity. Qed.

Example factory_filter_audio :
  gst_auto_video_src_factory_filter
    (mkFeature GST_TYPE_ELEMENT_FACTORY "alsasrc" 256 "Source/Audio") tt = false.
Proof. reflexivity. Qed.

(* ===================================================================== *)
(** ** The name of a trial instance *)
(* ===================================================================== *)



Example pretty_name_gst_prefix :
  pretty_name "src0" "gstfoosrc" = Ok "src0-actual-src-fo".
Proof. reflexivity. Qed.

Example pretty_name_no_suffix :
  pretty_name "src0" "gstcamera" = Ok "src0-actual-src-camera".
Proof. reflexivity. Qed.

(** The three-character name "src" makes the write fall before the string. *)
Example pretty_name_bare_suffix : pretty_name "src0" "src" = Undefined.
Proof. reflexivity. Qed.

(* ===================================================================== *)
(** ** The filter-caps property *)
(* ===================================================================== *)

(** C2. A write to filter-caps is not rejected while a detected element is
    bound: the setter has no branch on [src->kid] or on the state, so the
    value replaces the stored caps whatever the kid is; here it does so
    with v4l2src bound. *)
Theorem set_property_stores_caps_always :
  (forall (src : GstAutoVideoSrc) (value : option GstCaps),
     filter_caps (gst_auto_video_src_set_property src PROP_CAPS value) = value
     /\ kid (gst_auto_video_src_set_property src PROP_CAPS value) = kid src)
  /\ (exists k, kid bound_to_v4l2 = Some k /\ is_fakesrc k = false)
  /\ filter_caps bound_to_v4l2 = Some raw_caps
  /\ gst_auto_video_src_get_property
       (gst_auto_video_src_set_property bound_to_v4l2 PROP_CAPS (Some "video/x-h264"))
       PROP_CAPS = Some "video/x-h264".
Proof.
  split; [intros src value; split; reflexivity|].
  split; [eexists; split; reflexivity|]. split; reflexivity.
Qed.

(** That facade is the one a successful activation produces when v4l2src
    is the only video source of the registry. *)
Example bound_to_v4l2_reachable :
  let w := Sample.world [v4l2_src] Sample.always in
  gst_auto_video_src_change_state w (Sample.facade w)
    GST_STATE_CHANGE_NULL_TO_READY = Ok (GST_STATE_CHANGE_SUCCESS, bound_to_v4l2).
Proof. vm_compute. reflexivity. Qed.

(* ===================================================================== *)
(** ** The ranking comparator *)
(* ===================================================================== *)

(** C4. The comparator does not order every pair by rank descending: the
    difference of two [guint] ranks is stored in a [gint], so for
    [forced_src] (rank 4294967295) against [v4l2_src] (rank 256) it is
    257, positive, and the sort puts the factory of lower rank first. *)
Theorem compare_ranks_wraps_around :
  rank forced_src > rank v4l2_src
  /\ gst_auto_video_src_factory_filter forced_src tt = true
  /\ gst_auto_video_src_factory_filter v4l2_src tt = true
  /\ gst_auto_video_src_compare_ranks forced_src v4l2_src = 257
  /\ g_list_sort gst_auto_video_src_compare_ranks [forced_src; v4l2_src]
     = [v4l2_src; forced_src].
Proof. repeat split; vm_compute; reflexivity. Qed.

(** X1. Where both ranks are below 2^31 nothing wraps, and the comparator
    is the order of the specification. *)
Lemma compare_ranks_in_range (f1 f2 : GstPluginFeature) :
  0 <= rank f1 < 2 ^ 31 -> 0 <= rank f2 < 2 ^ 31 ->
  (gst_auto_video_src_compare_ranks f1 f2 < 0 <-> Spec.precedes f1 f2)
  /\ (gst_auto_video_src_compare_ranks f1 f2 = 0 <->
        rank f1 = rank f2 /\ strcmp (name f2) (name f1) = 0).
Proof.
  intros H1 H2.
  unfold gst_auto_video_src_compare_ranks, gst_plugin_feature_get_rank,
    gst_plugin_feature_get_name, Spec.precedes, Spec.name_lt.
  assert (Hp : 2 ^ 31 = 2147483648) by reflexivity.
  assert (E1 : to_guint (rank f1) = rank f1)
    by (unfold to_guint, guint_max; apply Z.mod_small; lia).
  assert (E2 : to_guint (rank f2) = rank f2)
    by (unfold to_guint, guint_max; apply Z.mod_small; lia).
  rewrite E1, E2.
  assert (D : to_gint (to_guint (rank f2 - rank f1)) = rank f2 - rank f1).
  { unfold to_gint, to_guint, guint_max. rewrite Z.mod_mod by lia.
    destruct (Z_lt_le_dec (rank f2 - rank f1) 0) as [Hn|Hn].
    - assert (E : (rank f2 - rank f1) mod 2 ^ 32 = rank f2 - rank f1 + 2 ^ 32).
      { symmetry. apply Z.mod_unique with (q := -1); lia. }
      rewrite E. destruct (Z.ltb_spec (rank f2 - rank f1 + 2 ^ 32) (2 ^ 31)); lia.
    - rewrite Z.mod_small by lia.
      destruct (Z.ltb_spec (rank f2 - rank f1) (2 ^ 31)); lia. }
  rewrite D.
  destruct (Z.eqb_spec (rank f2 - rank f1) 0) as [E|E]; cbn [negb].
  - split.
    + split.
      * intros H. right. split; [lia | assumption].
      * intros [H|[_ H]]; [lia | assumption].
    + split.
      * intros H. split; [lia | assumption].
      * tauto.
  - split.
    + split.
      * intros H. left. lia.
      * intros [H|[H _]]; lia.
    + split.
      * intros H. lia.
      * intros [H _]. lia.
Qed.

Lemma compare_ranks_in_range_witness :
  (gst_auto_video_src_compare_ranks
     (mkFeature GST_TYPE_ELEMENT_FACTORY "zsrc" 128 "Source/Video")
     (mkFeature GST_TYPE_ELEMENT_FACTORY "asrc" 128 "Source/Video") < 0 <->
   Spec.precedes
     (mkFeature GST_TYPE_ELEMENT_FACTORY "zsrc" 128 "Source/Video")
     (mkFeature GST_TYPE_ELEMENT_FACTORY "asrc" 128 "Source/Video")).
Proof.
  apply (compare_ranks_in_range
           (mkFeature GST_TYPE_ELEMENT_FACTORY "zsrc" 128 "Source/Video")
           (mkFeature GST_TYPE_ELEMENT_FACTORY "asrc" 128 "Source/Video"));
    simpl; lia.
Defined.

(** At equal rank "zsrc" goes before "asrc". *)
Example zsrc_before_asrc :
  g_list_sort gst_auto_video_src_compare_ranks
    [mkFeature GST_TYPE_ELEMENT_FACTORY "asrc" 128 "Source/Video";
     mkFeature GST_TYPE_ELEMENT_FACTORY "zsrc" 128 "Source/Video"]
  = [mkFeature GST_TYPE_ELEMENT_FACTORY "zsrc" 128 "Source/Video";
     mkFeature GST_TYPE_ELEMENT_FACTORY "asrc" 128 "Source/Video"].
Proof. vm_compute. reflexivity. Qed.

(* ===================================================================== *)
(** ** The probing loop *)
(* ===================================================================== *)

Lemma created_app (a b : list ProbeEvent) : created (a ++ b) = (created a ++ created b)%list.
Proof. unfold created. apply flat_map_app. Qed.

Lemma trials_app (a b : list ProbeEvent) : trials (a ++ b) = (trials a ++ trials b)%list.
Proof. unfold trials. apply flat_map_app. Qed.

Create Rewrite HintDb probe.
#[local] Hint Rewrite created_app trials_app app_nil_r : probe.

Section Prober.
Variable w : World.
Variable src : GstAutoVideoSrc.

(** The loop reads the facade's name and filter only. *)
Lemma probe_candidate_ext (src' : GstAutoVideoSrc) f st :
  object_name src' = object_name src -> filter_caps src' = filter_caps src ->
  probe_candidate w src' f st = probe_candidate w src f st.
Proof.
  intros Hn Hf. unfold probe_candidate,
    gst_auto_video_src_create_element_with_pretty_name.
  now rewrite Hn, Hf.
Qed.

Lemma find_best_loop_ext (src' : GstAutoVideoSrc) items st :
  object_name src' = object_name src -> filter_caps src' = filter_caps src ->
  find_best_loop w src' items st = find_best_loop w src items st.
Proof.
  intros Hn Hf. revert st. induction items as [|f items IH]; intros st; simpl.
  - reflexivity.
  - rewrite (probe_candidate_ext src' f st Hn Hf).
    destruct (probe_candidate w src f st) as [[c st1]|]; simpl; auto.
    destruct c; auto.
Qed.

(** An invariant of the loop body is an invariant of the loop. *)
Lemma find_best_loop_invariant (I : ProbeState -> Prop) :
  (forall f st r, I st -> probe_candidate w src f st = Ok r -> I (snd r)) ->
  forall items st st',
    I st -> find_best_loop w src items st = Ok st' -> I st'.
Proof.
  intros Hstep items. induction items as [|f items IH]; intros st st' Hi H.
  - simpl in H. now injection H as <-.
  - simpl in H. destruct (probe_candidate w src f st) as [r|] eqn:E;
      cbn [bind] in H; [|discriminate].
    specialize (Hstep f st r Hi E). destruct (fst r).
    + now injection H as <-.
    + eauto.
Qed.

(** The loop has a result whenever every instance name is defined, which
    is the case for factory names of four characters or more. *)
Lemma probe_candidate_defined f st :
  (4 <= String.length (name f))%nat ->
  exists r, probe_candidate w src f st = Ok r.
Proof.
  intros Hlen. unfold probe_candidate,
    gst_auto_video_src_create_element_with_pretty_name, pretty_name, pretty_marker.
  unfold strlen. destruct (Nat.ltb_spec (String.length (name f)) 4); [lia|].
  destruct (g_str_has_suffix (name f) "src"); cbn [bind];
    destruct (factory_create w f _); destruct (filter_caps src) as [fc|];
    try destruct (negb (gst_caps_can_intersect w fc (src_pad_caps w f)));
    eexists; reflexivity.
Qed.

Lemma find_best_loop_defined items :
  Forall (fun f => (4 <= String.length (name f))%nat) items ->
  forall st, exists st', find_best_loop w src items st = Ok st'.
Proof.
  induction 1 as [|f items Hf _ IH]; intros st.
  - now exists st.
  - destruct (probe_candidate_defined f st Hf) as [[c st1] E].
    cbn [find_best_loop]. rewrite E. cbn. destruct c; eauto.
Qed.

(** Errors are appended: what is recorded stays where it is, so the head
    of [errors] is the error that was recorded first. *)
Lemma probe_candidate_errors f st r :
  probe_candidate w src f st = Ok r ->
  exists new, errors (snd r) = (errors st ++ new)%list.
Proof.
  unfold probe_candidate, trial_activation. intros H.
  destruct (gst_auto_video_src_create_element_with_pretty_name w src f)
    as [[el|]|]; cbn [bind] in H; try discriminate.
  - destruct (filter_caps src) as [fc|];
      [destruct (gst_caps_can_intersect w fc (src_pad_caps w f)); cbn [negb] in H|];
      try destruct (is_success (trial_ready w f));
      injection H as <-; cbn;
      solve [exists []; now rewrite app_nil_r | eexists; reflexivity].
  - injection H as <-. exists []. cbn. now rewrite app_nil_r.
Qed.

Lemma find_best_loop_errors items st st' :
  find_best_loop w src items st = Ok st' ->
  exists new, errors st' = (errors st ++ new)%list.
Proof.
  apply (find_best_loop_invariant
           (fun s => exists new, errors s = (errors st ++ new)%list)).
  - intros f s r [new Hs] Hr.
    destruct (probe_candidate_errors f s r Hr) as [new' Hr'].
    exists (new ++ new')%list. now rewrite Hr', Hs, app_assoc.
  - exists []. now rewrite app_nil_r.
Qed.

(** What one iteration does when the candidate is created but its caps
    do not intersect the filter. *)
Lemma probe_candidate_caps_mismatch f fc el st :
  filter_caps src = Some fc ->
  gst_auto_video_src_create_element_with_pretty_name w src f = Ok (Some el) ->
  gst_caps_can_intersect w fc (src_pad_caps w f) = false ->
  probe_candidate w src f st
  = Ok (Next, mkProbe (choice st) (errors st) (bus st)
                (events st ++ [EvCreate f true; EvCapsCheck f fc false; EvUnref f])).
Proof.
  intros Hf Hc Hm. unfold probe_candidate. rewrite Hc. cbn [bind].
  rewrite Hf, Hm. cbn [negb]. unfold log. cbn.
  now rewrite <- !app_assoc.
Qed.

(** An element is driven to READY only after its caps passed the filter. *)
Lemma probe_candidate_trials f fc st r :
  filter_caps src = Some fc ->
  probe_candidate w src f st = Ok r ->
  forall g, In g (trials (events (snd r))) ->
    In g (trials (events st))
    \/ (g = f /\ gst_caps_can_intersect w fc (src_pad_caps w f) = true).
Proof.
  intros Hf H g. unfold probe_candidate in H.
  destruct (gst_auto_video_src_create_element_with_pretty_name w src f)
    as [[el|]|]; cbn [bind] in H; try discriminate.
  - rewrite Hf in H.
    destruct (gst_caps_can_intersect w fc (src_pad_caps w f)) eqn:Hc;
      cbn [negb] in H.
    + unfold trial_activation in H.
      destruct (is_success (trial_ready w f)); injection H as <-;
        cbn; autorewrite with probe; cbn; rewrite ?in_app_iff; cbn;
        intuition auto.
    + injection H as <-. cbn. autorewrite with probe. cbn.
      auto.
  - injection H as <-. cbn. autorewrite with probe. cbn.
    auto.
Qed.

Lemma probe_candidate_checked f fc st r :
  filter_caps src = Some fc ->
  probe_candidate w src f st = Ok r ->
  all_checked w fc (events st) -> all_checked w fc (events (snd r)).
Proof.
  intros Hf H Hi g. unfold probe_candidate in H.
  destruct (gst_auto_video_src_create_element_with_pretty_name w src f)
    as [[el|]|]; cbn [bind] in H; try discriminate.
  - rewrite Hf in H. rewrite negb_involutive in H.
    assert (Hev : exists rest,
               events (snd r) = (events st ++ EvCreate f true
                 :: EvCapsCheck f fc (gst_caps_can_intersect w fc (src_pad_caps w f))
                 :: rest)%list
               /\ forall g, ~ In (EvCreate g true) rest).
    { destruct (gst_caps_can_intersect w fc (src_pad_caps w f)); cbn [negb] in H.
      - unfold trial_activation in H.
        destruct (is_success (trial_ready w f)); injection H as <-; cbn;
          rewrite <- !app_assoc; cbn; eexists; split; try reflexivity;
          cbn; intuition discriminate.
      - injection H as <-. cbn. rewrite <- !app_assoc. cbn.
        eexists; split; try reflexivity. cbn; intuition discriminate. }
    destruct Hev as (rest & -> & Hrest).
    rewrite !in_app_iff. cbn. intros [Hg|[Hg|[Hg|Hg]]].
    + left. now apply Hi.
    + injection Hg as <-. right. right. now left.
    + discriminate.
    + now apply Hrest in Hg.
  - injection H as <-. cbn. rewrite !in_app_iff. cbn.
    intros [Hg|[Hg|[]]]; [left; now apply Hi | discriminate].
Qed.

End Prober.

Example two_drivers_ranked :
  candidates Sample.two_drivers (Sample.facade Sample.two_drivers)
  = [Sample.drvA; Sample.drvB].
Proof. vm_compute. reflexivity. Qed.

(* ===================================================================== *)
(** ** Candidates the caps filter excludes *)
(* ===================================================================== *)

Lemma no_trial_without_intersection (w : World) (src : GstAutoVideoSrc)
    (fc : GstCaps) (f : GstPluginFeature) :
  filter_caps src = Some fc ->
  gst_caps_can_intersect w fc (src_pad_caps w f) = false ->
  forall items st st',
    ~ In f (trials (events st)) ->
    find_best_loop w src items st = Ok st' ->
    ~ In f (trials (events st')).
Proof.
  intros Hf Hm items st st' Hst H.
  apply (find_best_loop_invariant w src
           (fun s => ~ In f (trials (events s)))) with (items := items) (st := st);
    auto.
  intros g s r Hs Hr Hin.
  destruct (probe_candidate_trials w src g fc s r Hf Hr f Hin) as [H1|[-> H1]].
  - contradiction.
  - congruence.
Qed.

(** C6. With a filter configured, a created candidate whose caps do not
    intersect it is dropped by [continue]: the iteration records the
    creation, the caps check and the unref and nothing else, so the
    element is never driven to READY, [errors] and the bus are as before,
    and the loop goes on with the next cell; in the whole run no trial
    activation of that factory occurs. *)
Theorem caps_mismatch_skips_trial (w : World) (src : GstAutoVideoSrc)
    (f : GstPluginFeature) (fc : GstCaps) (el : GstElement) :
  filter_caps src = Some fc ->
  gst_auto_video_src_create_element_with_pretty_name w src f = Ok (Some el) ->
  gst_caps_can_intersect w fc (src_pad_caps w f) = false ->
  (forall st,
     exists st1,
       probe_candidate w src f st = Ok (Next, st1)
       /\ events st1
          = (events st ++ [EvCreate f true; EvCapsCheck f fc false; EvUnref f])%list
       /\ trials (events st1) = trials (events st)
       /\ errors st1 = errors st
       /\ bus st1 = bus st
       /\ choice st1 = choice st
       /\ forall next,
            find_best_loop w src (f :: next) st = find_best_loop w src next st1)
  /\ (forall items st',
        find_best_loop w src items probe_start = Ok st' ->
        ~ In f (trials (events st'))).
Proof.
  intros Hf Hc Hm. split.
  - intros st. eexists. split.
    + apply (probe_candidate_caps_mismatch w src f fc el st Hf Hc Hm).
    + cbn. repeat split.
      * autorewrite with probe. reflexivity.
      * intros next.
        rewrite (probe_candidate_caps_mismatch w src f fc el st Hf Hc Hm).
        reflexivity.
  - intros items st' H.
    apply (no_trial_without_intersection w src fc f Hf Hm items probe_start st');
      auto.
Qed.

Lemma caps_mismatch_skips_trial_witness :
  exists st',
    find_best_loop Sample.with_h264 (Sample.facade Sample.with_h264)
      [Sample.h264cam; Sample.drvB] probe_start = Ok st'
    /\ ~ In Sample.h264cam (trials (events st')).
Proof.
  eexists. split; [vm_compute; reflexivity|].
  apply (proj2 (caps_mismatch_skips_trial Sample.with_h264
                  (Sample.facade Sample.with_h264) Sample.h264cam raw_caps
                  (mkElement "h264cam" "autovideosrc0-actual-src-h264cam" false)
                  eq_refl eq_refl eq_refl)
               [Sample.h264cam; Sample.drvB]).
  vm_compute. reflexivity.
Defined.

(* ===================================================================== *)
(** ** The default filter *)
(* ===================================================================== *)

(** The filter survives what the facade itself does between construction
    and probing. *)
Lemma clear_kid_keeps (w : World) (src : GstAutoVideoSrc) :
  object_name (gst_auto_video_src_clear_kid w src) = object_name src
  /\ filter_caps (gst_auto_video_src_clear_kid w src) = filter_caps src
  /\ posted (gst_auto_video_src_clear_kid w src) = posted src
  /\ kid (gst_auto_video_src_clear_kid w src) = None.
Proof.
  unfold gst_auto_video_src_clear_kid, gst_bin_remove.
  destruct src as [nm k ch t fc p]; cbn. destruct k as [k|]; cbn; auto.
  destruct t as [t|]; cbn; auto.
  destruct (bin_remove_unlinks w && element_eqb t k); cbn; auto.
Qed.

Lemma reset_keeps (w : World) (src : GstAutoVideoSrc) :
  object_name (gst_auto_video_src_reset w src) = object_name src
  /\ filter_caps (gst_auto_video_src_reset w src) = filter_caps src
  /\ posted (gst_auto_video_src_reset w src) = posted src
  /\ kid (gst_auto_video_src_reset w src) = Some (make_fakesrc "tempsrc").
Proof.
  destruct (clear_kid_keeps w src) as (Hn & Hf & Hp & Hk).
  unfold gst_auto_video_src_reset, gst_ghost_pad_set_target.
  destruct (ghost_pad_link_ok w (make_fakesrc "tempsrc")); cbn; auto.
Qed.

(* ===================================================================== *)
(** ** The first candidate that reaches READY is chosen *)
(* ===================================================================== *)

Section FirstSuccess.
Variable w : World.
Variable src : GstAutoVideoSrc.

Lemma trial_activation_failure (g : GstPluginFeature) (el : GstElement)
    (s : ProbeState) :
  is_success (trial_ready w g) = false ->
  exists st1,
    trial_activation w g el s = (Next, st1)
    /\ choice st1 = choice s
    /\ created (events st1) = created (events s).
Proof.
  intros Hs. unfold trial_activation. rewrite Hs. eexists.
  split; [reflexivity|]. cbn. autorewrite with probe. cbn.
  autorewrite with probe. auto.
Qed.

Lemma probe_candidate_rejected (g : GstPluginFeature) (st : ProbeState) :
  trial_succeeds w src g = Ok false ->
  exists st1,
    probe_candidate w src g st = Ok (Next, st1)
    /\ choice st1 = choice st
    /\ created (events st1) = (created (events st) ++ [g])%list.
Proof.
  unfold trial_succeeds, probe_candidate. intros H.
  destruct (gst_auto_video_src_create_element_with_pretty_name w src g)
    as [[el|]|]; cbn [bind] in *; try discriminate.
  - injection H as H.
    destruct (filter_caps src) as [fc|].
    + destruct (gst_caps_can_intersect w fc (src_pad_caps w g)); cbn [negb andb] in *.
      * destruct (trial_activation_failure g el
                    (log (log st (EvCreate g true)) (EvCapsCheck g fc true)) H)
          as (st1 & E & H1 & H2).
        exists st1. rewrite E. repeat split; auto.
        rewrite H2. cbn. autorewrite with probe. cbn.
        autorewrite with probe. reflexivity.
      * eexists. split; [reflexivity|]. cbn. autorewrite with probe. cbn.
        autorewrite with probe. auto.
    + cbn [andb] in H.
      destruct (trial_activation_failure g el (log st (EvCreate g true)) H)
        as (st1 & E & H1 & H2).
      exists st1. rewrite E. repeat split; auto.
      rewrite H2. cbn. autorewrite with probe. reflexivity.
  - eexists. split; [reflexivity|]. cbn. autorewrite with probe. auto.
Qed.

Lemma probe_candidate_accepted (f : GstPluginFeature) (st : ProbeState) :
  trial_succeeds w src f = Ok true ->
  exists el st1,
    gst_auto_video_src_create_element_with_pretty_name w src f = Ok (Some el)
    /\ probe_candidate w src f st = Ok (Break, st1)
    /\ choice st1 = Some el
    /\ errors st1 = errors st
    /\ created (events st1) = (created (events st) ++ [f])%list.
Proof.
  unfold trial_succeeds, probe_candidate. intros H.
  destruct (gst_auto_video_src_create_element_with_pretty_name w src f)
    as [[el|]|]; cbn [bind] in *; try discriminate.
  injection H as H. apply andb_prop in H as [Hc Hs].
  exists el. unfold trial_activation.
  destruct (filter_caps src) as [fc|].
  - rewrite Hc. cbn [negb]. rewrite Hs. eexists. split; [reflexivity|].
    split; [reflexivity|]. cbn. autorewrite with probe. cbn.
    autorewrite with probe. auto.
  - rewrite Hs. eexists. split; [reflexivity|].
    split; [reflexivity|]. cbn. autorewrite with probe. cbn.
    autorewrite with probe. auto.
Qed.

Lemma find_best_loop_rejects (pre rest : list GstPluginFeature) :
  Forall (fun g => trial_succeeds w src g = Ok false) pre ->
  forall st, exists st1,
    find_best_loop w src (pre ++ rest) st = find_best_loop w src rest st1
    /\ choice st1 = choice st
    /\ created (events st1) = (created (events st) ++ pre)%list.
Proof.
  induction 1 as [|g pre Hg _ IH]; intros st.
  - exists st. cbn. now rewrite app_nil_r.
  - destruct (probe_candidate_rejected g st Hg) as (st1 & E & Hc & Hcr).
    destruct (IH st1) as (st2 & E2 & Hc2 & Hcr2).
    exists st2. cbn [app find_best_loop]. rewrite E. cbn. rewrite E2.
    repeat split; try congruence.
    rewrite Hcr2, Hcr, <- app_assoc. reflexivity.
Qed.

End FirstSuccess.

Lemma probe_clear_kid (w : World) (src : GstAutoVideoSrc) :
  probe w (gst_auto_video_src_clear_kid w src) = probe w src.
Proof.
  destruct (clear_kid_keeps w src) as (Hn & Hf & _).
  unfold probe.
  change (candidates w (gst_auto_video_src_clear_kid w src)) with (candidates w src).
  now apply find_best_loop_ext.
Qed.

(** [gst_auto_video_src_detect] once the prober has returned [el]. *)
Lemma detect_with_choice (w : World) (src : GstAutoVideoSrc) (st : ProbeState)
    (el : GstElement) :
  probe w src = Ok st -> choice st = Some el ->
  exists s',
    gst_auto_video_src_detect w src = Ok (ghost_pad_link_ok w el, s')
    /\ kid s' = Some el
    /\ pad_target s' = (if ghost_pad_link_ok w el then Some el else None)
    /\ posted s'
       = (posted src ++ if ghost_pad_link_ok w el then [] else [target_failed src])%list.
Proof.
  intros Hp Hc. unfold gst_auto_video_src_detect, gst_auto_video_src_find_best.
  rewrite probe_clear_kid, Hp. cbn [bind]. unfold select. rewrite Hc. cbn [fst snd].
  destruct (clear_kid_keeps w src) as (Hn & Hf & Hpo & Hk).
  unfold gst_ghost_pad_set_target.
  destruct (ghost_pad_link_ok w el); cbn [fst snd]; eexists; split; try reflexivity;
    cbn; rewrite ?Hpo, ?Hn, ?app_nil_r; auto.
Qed.

(** C7. When the ranked list is [pre ++ f :: post], no candidate of [pre]
    succeeds and [f] does, then the prober calls the factories of [pre] and
    then [f], in that order, and no factory of [post]; it returns the
    element of [f]; the facade binds it; and none of the errors recorded
    for [pre] is posted: the prober posts nothing, and detection posts at
    most its own "Failed to set target pad". *)
Theorem first_success_is_bound (w : World) (src : GstAutoVideoSrc)
    (pre post : list GstPluginFeature) (f : GstPluginFeature) :
  candidates w src = (pre ++ f :: post)%list ->
  Forall (fun g => trial_succeeds w src g = Ok false) pre ->
  trial_succeeds w src f = Ok true ->
  exists el st,
    gst_auto_video_src_create_element_with_pretty_name w src f = Ok (Some el)
    /\ probe w src = Ok st
    /\ choice st = Some el
    /\ created (events st) = (pre ++ [f])%list
    /\ gst_auto_video_src_find_best w src = Ok (Some el, src)
    /\ exists s',
         gst_auto_video_src_detect w src = Ok (ghost_pad_link_ok w el, s')
         /\ kid s' = Some el
         /\ posted s'
            = (posted src
               ++ if ghost_pad_link_ok w el then [] else [target_failed src])%list.
Proof.
  intros Hl Hpre Hf.
  destruct (find_best_loop_rejects w src pre (f :: post) Hpre probe_start)
    as (st1 & E1 & Hc1 & Hcr1).
  destruct (probe_candidate_accepted w src f st1 Hf)
    as (el & st2 & Hel & E2 & Hc2 & He2 & Hcr2).
  assert (Hp : probe w src = Ok st2).
  { unfold probe. rewrite Hl, E1. cbn [find_best_loop]. rewrite E2. reflexivity. }
  exists el, st2. repeat split; auto.
  - rewrite Hcr2, Hcr1. reflexivity.
  - unfold gst_auto_video_src_find_best. rewrite Hp. cbn [bind].
    unfold select. now rewrite Hc2.
  - destruct (detect_with_choice w src st2 el Hp Hc2) as (s' & Hd & Hk & _ & Hpo).
    exists s'. auto.
Qed.

Lemma first_success_is_bound_witness :
  let w := Sample.two_drivers in
  let src := Sample.facade w in
  exists el st,
    gst_auto_video_src_create_element_with_pretty_name w src Sample.drvB
    = Ok (Some el)
    /\ probe w src = Ok st
    /\ choice st = Some el
    /\ created (events st) = [Sample.drvA; Sample.drvB]
    /\ gst_auto_video_src_find_best w src = Ok (Some el, src)
    /\ exists s',
         gst_auto_video_src_detect w src = Ok (ghost_pad_link_ok w el, s')
         /\ kid s' = Some el
         /\ posted s'
            = (posted src
               ++ if ghost_pad_link_ok w el then [] else [target_failed src])%list.
Proof.
  intros w src.
  apply (first_success_is_bound w src [Sample.drvA] [] Sample.drvB).
  - vm_compute. reflexivity.
  - constructor; [vm_compute; reflexivity | constructor].
  - vm_compute. reflexivity.
Defined.

(** In that run one error was recorded for drvA, and nothing is posted. *)
Example two_drivers_run :
  let w := Sample.two_drivers in
  exists st s',
    probe w (Sample.facade w) = Ok st
    /\ errors st = [Sample.busy]
    /\ gst_auto_video_src_change_state w (Sample.facade w)
         GST_STATE_CHANGE_NULL_TO_READY = Ok (GST_STATE_CHANGE_SUCCESS, s')
    /\ kid s' = Some (mkElement "drvB" "autovideosrc0-actual-src-drvB" false)
    /\ posted s' = [].
Proof. do 2 eexists. repeat split; vm_compute; reflexivity. Qed.

(* ===================================================================== *)
(** ** No candidate reaches READY *)
(* ===================================================================== *)

Lemma select_nothing_tried (w : World) (src : GstAutoVideoSrc) :
  select w src probe_start = (Some (fallback w), GST_ELEMENT_WARNING src
     "RESOURCE" "NOT_FOUND" "Failed to find a usable video source").
Proof. unfold select, fallback. cbn. now destruct (fakesrc_has_sync w). Qed.

(** [gst_auto_video_src_detect] on an empty candidate list. *)
Lemma detect_nothing_eligible (w : World) (src : GstAutoVideoSrc) :
  gst_registry_feature_filter w gst_auto_video_src_factory_filter src = [] ->
  exists s',
    gst_auto_video_src_detect w src = Ok (ghost_pad_link_ok w (fallback w), s')
    /\ kid s' = Some (fallback w)
    /\ pad_target s'
       = (if ghost_pad_link_ok w (fallback w) then Some (fallback w) else None)
    /\ posted s'
       = (posted src ++ not_found src
            :: if ghost_pad_link_ok w (fallback w) then [] else [target_failed src])%list.
Proof.
  intros Hq.
  assert (Hp : probe w (gst_auto_video_src_clear_kid w src) = Ok probe_start).
  { rewrite probe_clear_kid. unfold probe, candidates. rewrite Hq. reflexivity. }
  unfold gst_auto_video_src_detect, gst_auto_video_src_find_best.
  rewrite Hp. cbn [bind]. rewrite select_nothing_tried. cbn [fst snd].
  destruct (clear_kid_keeps w src) as (Hn & Hf & Hpo & Hk).
  unfold gst_ghost_pad_set_target.
  destruct (ghost_pad_link_ok w (fallback w)); cbn [fst snd]; eexists;
    (split; [reflexivity|]); cbn; rewrite ?Hpo, ?Hn; unfold not_found, target_failed;
    rewrite <- ?app_assoc; auto.
Qed.

(** Where the ghost pad does not link to the fallback element, the registry
    query returns nothing and yet the transition fails, with an error
    posted after the warning. *)
Lemma empty_registry_target_failed :
  let w := Sample.nothing_unlinkable in
  let src := Sample.facade w in
  gst_registry_feature_filter w gst_auto_video_src_factory_filter src = []
  /\ exists s',
       gst_auto_video_src_change_state w src GST_STATE_CHANGE_NULL_TO_READY
       = Ok (GST_STATE_CHANGE_FAILURE, s')
       /\ posted s' = [not_found src; target_failed src]
       /\ List.filter is_error (posted s') = [target_failed src].
Proof.
  cbv zeta. split; [reflexivity|]. eexists. repeat split; vm_compute; reflexivity.
Qed.

(* ===================================================================== *)
(** ** The kid and the target of the ghost pad *)
(* ===================================================================== *)

Lemma reset_targets (w : World) (src : GstAutoVideoSrc) :
  kid (gst_auto_video_src_reset w src) = Some tempsrc
  /\ pad_target (gst_auto_video_src_reset w src)
     = (if ghost_pad_link_ok w tempsrc then Some tempsrc else None).
Proof.
  split; [apply reset_keeps|].
  unfold gst_auto_video_src_reset, gst_ghost_pad_set_target. fold tempsrc.
  destruct (ghost_pad_link_ok w tempsrc); reflexivity.
Qed.

Lemma detect_cases (w : World) (src : GstAutoVideoSrc) (ok : bool)
    (s' : GstAutoVideoSrc) :
  gst_auto_video_src_detect w src = Ok (ok, s') ->
  (ok = true /\ targets_kid s')
  \/ (ok = false /\ kid s' = None)
  \/ (ok = false /\ exists k, kid s' = Some k /\ pad_target s' = None
                                /\ ghost_pad_link_ok w k = false).
Proof.
  unfold gst_auto_video_src_detect, gst_auto_video_src_find_best, targets_kid.
  destruct (clear_kid_keeps w src) as (_ & _ & _ & Hk).
  destruct (probe w (gst_auto_video_src_clear_kid w src)) as [st|];
    cbn [bind]; [|discriminate].
  unfold select. destruct (choice st) as [el|]; [|destruct (errors st)];
    cbn [fst snd]; unfold gst_ghost_pad_set_target.
  - destruct (ghost_pad_link_ok w el) eqn:Hl; cbn [fst snd]; intros H;
      injection H as <- <-; cbn; eauto 8.
  - destruct (ghost_pad_link_ok w _) eqn:Hl; cbn [fst snd]; intros H;
      injection H as <- <-; cbn; eauto 8.
  - intros H; injection H as <- <-. cbn. auto.
Qed.

(** After the failed activation of a facade whose only candidate cannot
    open its device, no element is bound at all. *)
Lemma failed_activation_leaves_no_kid :
  let w := Sample.only_drvA in
  exists s',
    gst_auto_video_src_change_state w (Sample.facade w)
      GST_STATE_CHANGE_NULL_TO_READY = Ok (GST_STATE_CHANGE_FAILURE, s')
    /\ kid s' = None
    /\ ~ placeholder_bound s'.
Proof.
  cbv zeta. eexists. split; [vm_compute; reflexivity|].
  split; [reflexivity|]. intros (k & Hk & _). discriminate.
Qed.

(** [gst_auto_video_src_reset] does not look at what re-targeting returns:
    where the ghost pad does not link to "tempsrc", the constructed facade
    has the placeholder as kid and a ghost pad without target. *)
Example construction_without_link :
  let w := Sample.world [] (fun _ => false) in
  kid (Sample.facade w) = Some tempsrc /\ pad_target (Sample.facade w) = None.
Proof. split; reflexivity. Qed.

(** The whole life of a facade over a registry with two drivers: it is
    constructed, activated (drvA fails, drvB is bound), and deactivated. *)
Example two_drivers_lifecycle :
  let w := Sample.two_drivers in
  exists s1 s2,
    gst_auto_video_src_change_state w (Sample.facade w)
      GST_STATE_CHANGE_NULL_TO_READY = Ok (GST_STATE_CHANGE_SUCCESS, s1)
    /\ targets_kid s1 /\ ~ placeholder_bound s1
    /\ gst_auto_video_src_change_state w s1
         GST_STATE_CHANGE_READY_TO_NULL = Ok (GST_STATE_CHANGE_SUCCESS, s2)
    /\ targets_kid s2 /\ placeholder_bound s2
    /\ children s2 = [tempsrc].
Proof.
  cbv zeta. do 2 eexists.
  split; [vm_compute; reflexivity|].
  split; [eexists; split; reflexivity|].
  split; [intros (k & Hk & Hf); injection Hk as <-; discriminate|].
  split; [vm_compute; reflexivity|].
  split; [eexists; split; reflexivity|].
  split; [eexists; split; reflexivity|].
  reflexivity.
Qed.

(* ===================================================================== *)
(** ** The sort: what it keeps and what it orders *)
(* ===================================================================== *)

Section SortFacts.
Context {A : Type}.
Variable compare_func : A -> A -> Z.

Let le (a b : A) : Prop := compare_func a b <= 0.

Lemma g_list_sort_merge_perm (l1 l2 : list A) :
  Permutation (g_list_sort_merge compare_func l1 l2) (l1 ++ l2).
Proof.
  revert l2. induction l1 as [|x l1 IH1]; intros l2.
  - destruct l2; reflexivity.
  - induction l2 as [|y l2 IH2].
    + cbn. now rewrite app_nil_r.
    + cbn [g_list_sort_merge]. destruct (compare_func x y <=? 0).
      * cbn. constructor. apply IH1.
      * etransitivity; [constructor; exact IH2|].
        cbn. apply (Permutation_middle (x :: l1) l2 y).
Qed.

Lemma g_list_sort_real_perm (fuel : nat) (l : list A) :
  Permutation (g_list_sort_real compare_func fuel l) l.
Proof.
  revert l. induction fuel as [|fuel IH]; intros l; [reflexivity|].
  destruct l as [|x [|y l]]; try reflexivity.
  cbn [g_list_sort_real].
  etransitivity; [apply g_list_sort_merge_perm|].
  rewrite !IH. now rewrite firstn_skipn.
Qed.

(** Merging two lists where everything in the first may stand before
    everything in the second is appending them. *)
Lemma g_list_sort_merge_app (l1 l2 : list A) :
  (forall a b, In a l1 -> In b l2 -> le a b) ->
  g_list_sort_merge compare_func l1 l2 = (l1 ++ l2)%list.
Proof.
  revert l2. induction l1 as [|x l1 IH]; intros l2 H.
  - destruct l2; reflexivity.
  - destruct l2 as [|y l2].
    + cbn. now rewrite app_nil_r.
    + cbn [g_list_sort_merge].
      assert (Hxy : compare_func x y <= 0) by (apply H; now left).
      apply Z.leb_le in Hxy. rewrite Hxy. cbn. f_equal.
      apply IH. intros a b Ha Hb. apply H; [now right | exact Hb].
Qed.

Lemma StronglySorted_app_inv (l1 l2 : list A) :
  StronglySorted le (l1 ++ l2) ->
  StronglySorted le l1 /\ StronglySorted le l2
  /\ forall a b, In a l1 -> In b l2 -> le a b.
Proof.
  induction l1 as [|x l1 IH]; cbn; intros H.
  - repeat split; [constructor | exact H | intros a b []].
  - apply StronglySorted_inv in H as [Hs Hx].
    destruct (IH Hs) as (H1 & H2 & H3).
    rewrite Forall_forall in Hx.
    repeat split; auto.
    + constructor; auto. rewrite Forall_forall. intros b Hb.
      apply Hx. apply in_or_app. now left.
    + intros a b [<-|Ha] Hb; [apply Hx, in_or_app; now right | now apply H3].
Qed.

(** A list that is already in order comes back as it is. *)
Lemma g_list_sort_real_sorted_id (fuel : nat) (l : list A) :
  StronglySorted le l -> g_list_sort_real compare_func fuel l = l.
Proof.
  revert l. induction fuel as [|fuel IH]; intros l Hs; [reflexivity|].
  destruct l as [|x [|y l]]; try reflexivity.
  cbn [g_list_sort_real].
  set (n := (List.length (x :: y :: l) / 2)%nat).
  rewrite <- (firstn_skipn n (x :: y :: l)) in Hs.
  destruct (StronglySorted_app_inv _ _ Hs) as (H1 & H2 & H3).
  rewrite (IH _ H1), (IH _ H2), (g_list_sort_merge_app _ _ H3).
  apply firstn_skipn.
Qed.

(** On elements where the comparison is total and transitive. *)
Variable P : A -> Prop.
Hypothesis le_total : forall a b, P a -> P b -> le a b \/ le b a.
Hypothesis le_trans : forall a b c, P a -> P b -> P c -> le a b -> le b c -> le a c.

Lemma g_list_sort_merge_sorted (l1 l2 : list A) :
  Forall P l1 -> Forall P l2 ->
  StronglySorted le l1 -> StronglySorted le l2 ->
  StronglySorted le (g_list_sort_merge compare_func l1 l2).
Proof.
  revert l2. induction l1 as [|x l1 IH1]; intros l2 P1 P2 S1 S2.
  - destruct l2; assumption.
  - induction l2 as [|y l2 IH2]; [assumption|].
    cbn [g_list_sort_merge].
    apply Forall_cons_iff in P1 as P1'. destruct P1' as [Px P1'].
    apply Forall_cons_iff in P2 as P2'. destruct P2' as [Py P2'].
    apply StronglySorted_inv in S1 as S1'. destruct S1' as [S1' Hx].
    apply StronglySorted_inv in S2 as S2'. destruct S2' as [S2' Hy].
    pose proof (proj1 (Forall_forall _ _) Hx) as Hx'.
    pose proof (proj1 (Forall_forall _ _) Hy) as Hy'.
    pose proof (proj1 (Forall_forall _ _) P1') as Q1.
    pose proof (proj1 (Forall_forall _ _) P2') as Q2.
    destruct (Z.leb_spec (compare_func x y) 0) as [Hxy|Hxy].
    + constructor; [now apply IH1|].
      rewrite Forall_forall. intros b Hb.
      apply (Permutation_in _ (g_list_sort_merge_perm l1 (y :: l2))) in Hb.
      apply in_app_or in Hb as [Hb|[<-|Hb]]; auto.
      apply (le_trans x y b); auto.
    + assert (Hyx : le y x).
      { destruct (le_total x y Px Py) as [H|H]; [unfold le in H; lia | exact H]. }
      constructor; [now apply IH2|].
      rewrite Forall_forall. intros b Hb.
      apply (Permutation_in _ (g_list_sort_merge_perm (x :: l1) l2)) in Hb.
      apply in_app_or in Hb as [[<-|Hb]|Hb]; auto.
      apply (le_trans y x b); auto.
Qed.

Lemma g_list_sort_real_sorted (fuel : nat) (l : list A) :
  (List.length l <= fuel)%nat -> Forall P l ->
  StronglySorted le (g_list_sort_real compare_func fuel l).
Proof.
  revert l. induction fuel as [|fuel IH]; intros l Hlen HP.
  - destruct l; [constructor | simpl in Hlen; lia].
  - destruct l as [|x [|y l]].
    + constructor.
    + repeat constructor.
    + cbn [g_list_sort_real].
      set (n := List.length (x :: y :: l)) in *.
      assert (Hn : (2 <= n)%nat) by (unfold n; simpl; lia).
      destruct (half_shorter n Hn) as (Ha & Hb & Hc).
      pose proof HP as HP'.
      rewrite <- (firstn_skipn (n / 2) (x :: y :: l)) in HP'.
      apply Forall_app in HP' as [F1 F2].
      apply g_list_sort_merge_sorted.
      * eapply Permutation_Forall; [symmetry; apply g_list_sort_real_perm | exact F1].
      * eapply Permutation_Forall; [symmetry; apply g_list_sort_real_perm | exact F2].
      * apply IH; auto. rewrite length_firstn. fold n. lia.
      * apply IH; auto. rewrite length_skipn. fold n. lia.
Qed.

End SortFacts.

(* ===================================================================== *)
(** ** The comparator on plain features *)
(* ===================================================================== *)

Lemma byte_range (c : ascii) : 0 <= byte c < 256.
Proof.
  unfold byte. pose proof (N_ascii_bounded c) as H.
  split; [apply N2Z.is_nonneg|]. change 256 with (Z.of_N 256). now apply N2Z.inj_lt.
Qed.

Lemma byte_inj (c d : ascii) : byte c = byte d -> c = d.
Proof.
  unfold byte. intros H. apply N2Z.inj in H.
  rewrite <- (ascii_N_embedding c), <- (ascii_N_embedding d). now rewrite H.
Qed.

Lemma byte_zero (c : ascii) : byte c = 0 -> c = Ascii.zero.
Proof. intros H. apply byte_inj. rewrite H. reflexivity. Qed.

Ltac byte_bounds :=
  repeat match goal with
         | c : ascii |- _ =>
             lazymatch goal with
             | _ : 0 <= byte c < 256 |- _ => fail
             | _ => pose proof (byte_range c)
             end
         end.

(** A byte known to be 0 inside a string without NUL. *)
Ltac nul_absurd :=
  exfalso;
  match goal with
  | H : ?c <> Ascii.zero /\ _ |- _ =>
      apply (proj1 H), byte_zero; byte_bounds; lia
  end.

Lemma strcmp_opp (a b : string) : strcmp b a = - strcmp a b.
Proof.
  revert b. induction a as [|c a IH]; intros [|d b]; cbn [strcmp]; try lia.
  rewrite (Ascii.eqb_sym d c). destruct (Ascii.eqb c d); [apply IH | lia].
Qed.

Lemma strcmp_refl (a : string) : strcmp a a = 0.
Proof.
  induction a as [|c a IH]; cbn [strcmp]; [reflexivity|].
  now rewrite Ascii.eqb_refl.
Qed.

Lemma strcmp_eq (a b : string) :
  no_nul a -> no_nul b -> strcmp a b = 0 -> a = b.
Proof.
  revert b. induction a as [|c a IH]; intros [|d b] Ha Hb H;
    cbn [strcmp no_nul] in *; try reflexivity; try nul_absurd.
  destruct (Ascii.eqb_spec c d) as [->|Hne].
  - f_equal. apply IH; tauto.
  - elim Hne. apply byte_inj. lia.
Qed.

Lemma strcmp_trans (a b c : string) :
  no_nul a -> no_nul b -> no_nul c ->
  strcmp a b <= 0 -> strcmp b c <= 0 -> strcmp a c <= 0.
Proof.
  revert b c. induction a as [|x a IH]; intros [|y b] [|z c] Ha Hb Hc H1 H2;
    cbn [strcmp no_nul] in *; byte_bounds; try lia; try nul_absurd.
  destruct (Ascii.eqb_spec x y) as [->|Hxy];
    destruct (Ascii.eqb_spec y z) as [->|Hyz].
  - apply (IH b c); tauto.
  - lia.
  - destruct (Ascii.eqb_spec x z) as [E|_]; [contradiction | lia].
  - assert (byte x <> byte y) by (intros E; apply Hxy, byte_inj, E).
    assert (byte y <> byte z) by (intros E; apply Hyz, byte_inj, E).
    destruct (Ascii.eqb_spec x z) as [->|_]; lia.
Qed.

(** Without wrap-around the comparator is the rank difference, and the
    name comparison at equal rank. *)
Lemma compare_ranks_no_wrap (f1 f2 : GstPluginFeature) :
  0 <= rank f1 < 2 ^ 31 -> 0 <= rank f2 < 2 ^ 31 ->
  gst_auto_video_src_compare_ranks f1 f2
  = if rank f2 - rank f1 =? 0 then strcmp (name f2) (name f1)
    else rank f2 - rank f1.
Proof.
  intros H1 H2.
  unfold gst_auto_video_src_compare_ranks, gst_plugin_feature_get_rank,
    gst_plugin_feature_get_name.
  assert (Hp : 2 ^ 31 = 2147483648) by reflexivity.
  assert (Hq : 2 ^ 32 = 4294967296) by reflexivity.
  unfold to_guint, to_gint, guint_max. rewrite Hq.
  rewrite (Z.mod_small (rank f1)), (Z.mod_small (rank f2)) by lia.
  rewrite Z.mod_mod by lia.
  destruct (Z_lt_le_dec (rank f2 - rank f1) 0) as [Hn|Hn].
  - assert (E : (rank f2 - rank f1) mod 4294967296
                = rank f2 - rank f1 + 4294967296).
    { symmetry. apply Z.mod_unique with (q := -1); lia. }
    rewrite E.
    destruct (Z.ltb_spec (rank f2 - rank f1 + 4294967296) (2 ^ 31)); [lia|].
    replace (rank f2 - rank f1 + 4294967296 - 4294967296)
      with (rank f2 - rank f1) by lia.
    destruct (Z.eqb_spec (rank f2 - rank f1) 0); [lia | reflexivity].
  - rewrite Z.mod_small by lia.
    destruct (Z.ltb_spec (rank f2 - rank f1) (2 ^ 31)); [|lia].
    destruct (Z.eqb_spec (rank f2 - rank f1) 0); reflexivity.
Qed.

Lemma compare_ranks_not_after (f1 f2 : GstPluginFeature) :
  plain_feature f1 -> plain_feature f2 ->
  (gst_auto_video_src_compare_ranks f1 f2 <= 0 <-> not_after f1 f2).
Proof.
  intros [R1 _] [R2 _]. rewrite (compare_ranks_no_wrap f1 f2 R1 R2).
  unfold not_after.
  destruct (Z.eqb_spec (rank f2 - rank f1) 0) as [E|E]; split; intros H.
  - right. split; [lia | exact H].
  - destruct H as [H|[_ H]]; [lia | exact H].
  - left. lia.
  - destruct H as [H|[H _]]; lia.
Qed.

Lemma compare_ranks_total (f1 f2 : GstPluginFeature) :
  plain_feature f1 -> plain_feature f2 ->
  gst_auto_video_src_compare_ranks f1 f2 <= 0
  \/ gst_auto_video_src_compare_ranks f2 f1 <= 0.
Proof.
  intros [R1 _] [R2 _].
  rewrite (compare_ranks_no_wrap f1 f2 R1 R2), (compare_ranks_no_wrap f2 f1 R2 R1).
  rewrite (strcmp_opp (name f2) (name f1)).
  destruct (Z.eqb_spec (rank f2 - rank f1) 0);
    destruct (Z.eqb_spec (rank f1 - rank f2) 0); lia.
Qed.

Lemma compare_ranks_trans (f1 f2 f3 : GstPluginFeature) :
  plain_feature f1 -> plain_feature f2 -> plain_feature f3 ->
  gst_auto_video_src_compare_ranks f1 f2 <= 0 ->
  gst_auto_video_src_compare_ranks f2 f3 <= 0 ->
  gst_auto_video_src_compare_ranks f1 f3 <= 0.
Proof.
  intros P1 P2 P3.
  rewrite !compare_ranks_not_after by assumption.
  destruct P1 as [_ N1], P2 as [_ N2], P3 as [_ N3]. unfold not_after.
  intros [H1|[H1 S1]] [H2|[H2 S2]]; try (left; lia).
  right. split; [lia|]. apply (strcmp_trans _ (name f2)); auto.
Qed.

(* ===================================================================== *)
(** ** The candidate list *)
(* ===================================================================== *)

Lemma StronglySorted_weaken {A : Type} (P : A -> Prop) (R R' : A -> A -> Prop)
    (l : list A) :
  (forall a b, P a -> P b -> R a b -> R' a b) ->
  Forall P l -> StronglySorted R l -> StronglySorted R' l.
Proof.
  intros HR HP HS. induction HS as [|a l HS IH Ha]; [constructor|].
  apply Forall_cons_iff in HP as [Pa Pl]. constructor; [now apply IH|].
  rewrite Forall_forall in *. intros b Hb. apply HR; auto.
Qed.

Lemma filter_perm {A : Type} (f : A -> bool) (l l' : list A) :
  Permutation l l' -> Permutation (List.filter f l) (List.filter f l').
Proof.
  induction 1 as [|x l l' _ IH|x y l|l l' l'' _ IH1 _ IH2]; cbn.
  - constructor.
  - destruct (f x); [now constructor | exact IH].
  - destruct (f x), (f y); try reflexivity. constructor.
  - now transitivity (List.filter f l').
Qed.

(** Two ordered lists with the same elements are the same list, when no
    two different elements may each stand before the other. *)
Lemma sorted_perm_eq {A : Type} (R : A -> A -> Prop) (l1 : list A) :
  forall l2,
    (forall a b, In a l1 -> In b l1 -> R a b -> R b a -> a = b) ->
    StronglySorted R l1 -> StronglySorted R l2 -> Permutation l1 l2 -> l1 = l2.
Proof.
  induction l1 as [|x l1 IH]; intros l2 Hanti S1 S2 Hp.
  - apply Permutation_nil in Hp. now subst.
  - destruct l2 as [|y l2]; [apply Permutation_sym, Permutation_nil in Hp; discriminate|].
    apply StronglySorted_inv in S1 as [S1 Hx].
    apply StronglySorted_inv in S2 as [S2 Hy].
    rewrite Forall_forall in Hx, Hy.
    assert (E : x = y).
    { assert (Hyin : In y (x :: l1))
        by (apply (Permutation_in _ (Permutation_sym Hp)); now left).
      assert (Hxin : In x (y :: l2))
        by (apply (Permutation_in _ Hp); now left).
      destruct Hyin as [E|Hyin]; [exact E|].
      destruct Hxin as [E|Hxin]; [now symmetry|].
      apply Hanti; [now left | now right | now apply Hx | now apply Hy]. }
    subst y. f_equal. apply IH; auto.
    + intros a b Ha Hb. apply Hanti; now right.
    + now apply Permutation_cons_inv in Hp.
Qed.

Lemma same_name_same_feature (l : list GstPluginFeature) (a b : GstPluginFeature) :
  NoDup (map name l) -> In a l -> In b l -> name a = name b -> a = b.
Proof.
  induction l as [|x l IH]; cbn; intros Hn Ha Hb E; [contradiction|].
  apply NoDup_cons_iff in Hn as [Hx Hn].
  destruct Ha as [->|Ha], Hb as [->|Hb]; auto.
  - elim Hx. rewrite E. now apply in_map.
  - elim Hx. rewrite <- E. now apply in_map.
Qed.

Lemma candidates_perm (w : World) (src : GstAutoVideoSrc) :
  Permutation (candidates w src)
    (List.filter (fun f => gst_auto_video_src_factory_filter f tt) (registry w)).
Proof. unfold candidates, g_list_sort. apply g_list_sort_real_perm. Qed.

Lemma candidates_in (w : World) (src : GstAutoVideoSrc) (f : GstPluginFeature) :
  In f (candidates w src) <->
  In f (registry w) /\ gst_auto_video_src_factory_filter f tt = true.
Proof.
  split; intros H.
  - apply (Permutation_in _ (candidates_perm w src)) in H.
    apply filter_In in H. exact H.
  - apply (Permutation_in _ (Permutation_sym (candidates_perm w src))).
    apply filter_In. exact H.
Qed.

Lemma candidates_plain (w : World) (src : GstAutoVideoSrc) :
  Forall plain_feature (registry w) -> Forall plain_feature (candidates w src).
Proof.
  intros H. rewrite Forall_forall in *. intros f Hf.
  apply candidates_in in Hf as [Hf _]. auto.
Qed.

Lemma candidates_sorted (w : World) (src : GstAutoVideoSrc) :
  Forall plain_feature (registry w) ->
  StronglySorted (fun a b => gst_auto_video_src_compare_ranks a b <= 0)
    (candidates w src).
Proof.
  intros H. unfold candidates, g_list_sort.
  apply (g_list_sort_real_sorted gst_auto_video_src_compare_ranks plain_feature
           compare_ranks_total compare_ranks_trans); [lia|].
  rewrite Forall_forall in *. intros f Hf. apply filter_In in Hf as [Hf _]. auto.
Qed.

(** X2. Ranking neither drops nor invents a candidate: the list the prober
    walks is a rearrangement of the registry features the predicate
    accepts, whatever their ranks. *)
Theorem candidates_are_the_eligible (w : World) (src : GstAutoVideoSrc) :
  Permutation (candidates w src)
    (List.filter (fun f => gst_auto_video_src_factory_filter f tt) (registry w))
  /\ List.length (candidates w src)
     = List.length (List.filter (fun f => gst_auto_video_src_factory_filter f tt)
                      (registry w))
  /\ forall f, In f (candidates w src) <->
       In f (registry w) /\ gst_auto_video_src_factory_filter f tt = true.
Proof.
  split; [apply candidates_perm|]. split.
  - apply Permutation_length, candidates_perm.
  - apply candidates_in.
Qed.

(** X3. When every rank of the registry is below 2^31 the candidate list is in
    order of rank descending, ties by name descending, and sorting it
    again changes nothing. *)
Theorem candidates_ranked (w : World) (src : GstAutoVideoSrc) :
  Forall plain_feature (registry w) ->
  StronglySorted not_after (candidates w src)
  /\ g_list_sort gst_auto_video_src_compare_ranks (candidates w src)
     = candidates w src.
Proof.
  intros H. pose proof (candidates_sorted w src H) as Hs. split.
  - apply (StronglySorted_weaken plain_feature
             (fun a b => gst_auto_video_src_compare_ranks a b <= 0)); auto.
    + intros a b Pa Pb. now apply compare_ranks_not_after.
    + now apply candidates_plain.
  - unfold g_list_sort at 1. now apply g_list_sort_real_sorted_id.
Qed.

Lemma sample_registry_plain : Forall plain_feature (registry Sample.two_drivers).
Proof.
  repeat constructor; cbn; try lia; try discriminate.
Qed.

Lemma candidates_ranked_witness :
  StronglySorted not_after [Sample.drvA; Sample.drvB]
  /\ g_list_sort gst_auto_video_src_compare_ranks [Sample.drvA; Sample.drvB]
     = [Sample.drvA; Sample.drvB].
Proof.
  exact (candidates_ranked Sample.two_drivers (Sample.facade Sample.two_drivers)
           sample_registry_plain).
Defined.

(** X4. The order in which the registry hands out its features does not show
    in the ranking: two registries with the same features, plain and with
    distinct names, give the same candidate list. *)
Theorem ranking_ignores_registry_order (w1 w2 : World) (src1 src2 : GstAutoVideoSrc) :
  Permutation (registry w1) (registry w2) ->
  Forall plain_feature (registry w1) ->
  NoDup (map name (registry w1)) ->
  candidates w1 src1 = candidates w2 src2.
Proof.
  intros Hp Hplain Hnd.
  assert (Hplain2 : Forall plain_feature (registry w2))
    by (eapply Permutation_Forall; eauto).
  apply (sorted_perm_eq (fun a b => gst_auto_video_src_compare_ranks a b <= 0)).
  - intros a b Ha Hb Hab Hba.
    pose proof (candidates_plain w1 src1 Hplain) as Hc.
    rewrite Forall_forall in Hc.
    pose proof (Hc a Ha) as Pa. pose proof (Hc b Hb) as Pb.
    apply candidates_in in Ha as [Ha _]. apply candidates_in in Hb as [Hb _].
    apply (same_name_same_feature (registry w1)); auto.
    apply compare_ranks_not_after in Hab; auto.
    apply compare_ranks_not_after in Hba; auto.
    destruct Pa as [_ Na], Pb as [_ Nb]. unfold not_after in *.
    destruct Hab as [Hab|[Eab Hab]], Hba as [Hba|[Eba Hba]]; try lia.
    apply strcmp_eq; auto. rewrite (strcmp_opp (name a) (name b)) in Hab. lia.
  - now apply candidates_sorted.
  - now apply candidates_sorted.
  - rewrite (candidates_perm w1 src1), (candidates_perm w2 src2).
    now apply filter_perm.
Qed.

Lemma ranking_ignores_registry_order_witness :
  candidates Sample.two_drivers (Sample.facade Sample.two_drivers)
  = candidates (Sample.world [Sample.drvA; Sample.alsasrc; Sample.drvB] Sample.always)
      (Sample.facade Sample.only_drvA).
Proof.
  apply ranking_ignores_registry_order.
  - cbn. symmetry.
    apply (Permutation_cons_append [Sample.alsasrc; Sample.drvB] Sample.drvA).
  - exact sample_registry_plain.
  - cbn. repeat constructor; cbn; intuition discriminate.
Defined.

(* ===================================================================== *)
(** ** Instance names that cannot be formed *)
(* ===================================================================== *)

Lemma pretty_marker_undefined (n : string) :
  pretty_marker n = Undefined <-> n = "src".
Proof.
  split; [|intros ->; reflexivity].
  unfold pretty_marker, g_str_has_suffix, strlen.
  destruct (Nat.ltb_spec (String.length n) (String.length "src")) as [H3|H3];
    cbn [bind]; [discriminate|].
  destruct (String.eqb_spec (offset (String.length n - String.length "src") n) "src")
    as [E|E]; cbn [bind]; [|discriminate].
  destruct (Nat.ltb_spec (String.length n) 4) as [H4|H4]; cbn [bind]; [|discriminate].
  intros _. cbn in H3.
  replace (String.length n - String.length "src")%nat with 0%nat in E
    by (cbn; lia).
  exact E.
Qed.

Lemma create_undefined (w : World) (src : GstAutoVideoSrc) (f : GstPluginFeature) :
  gst_auto_video_src_create_element_with_pretty_name w src f = Undefined
  <-> name f = "src".
Proof.
  rewrite <- pretty_marker_undefined.
  unfold gst_auto_video_src_create_element_with_pretty_name, pretty_name.
  destruct (pretty_marker (name f)); cbn [bind].
  - destruct (factory_create w f _); split; discriminate.
  - split; reflexivity.
Qed.

(** A registry with a factory called "src": its probing has no defined
    result. *)
Example bare_src_in_registry :
  let w := Sample.world
             [mkFeature GST_TYPE_ELEMENT_FACTORY "src" 256 "Source/Video"]
             Sample.always in
  gst_auto_video_src_change_state w (Sample.facade w)
    GST_STATE_CHANGE_NULL_TO_READY = Undefined.
Proof. reflexivity. Qed.

(* ===================================================================== *)
(** ** One iteration of the loop, case by case *)
(* ===================================================================== *)

Section Iteration.
Variable w : World.
Variable src : GstAutoVideoSrc.

(** The four ways through the loop body. *)
Lemma probe_candidate_shape (f : GstPluginFeature) (st : ProbeState)
    (r : control * ProbeState) :
  probe_candidate w src f st = Ok r ->
  (gst_auto_video_src_create_element_with_pretty_name w src f = Ok None
   /\ r = (Next, mkProbe (choice st) (errors st) (bus st)
                   (events st ++ [EvCreate f false])))
  \/ (exists el fc,
        gst_auto_video_src_create_element_with_pretty_name w src f = Ok (Some el)
        /\ filter_caps src = Some fc
        /\ gst_caps_can_intersect w fc (src_pad_caps w f) = false
        /\ r = (Next, mkProbe (choice st) (errors st) (bus st)
                        (events st ++ [EvCreate f true; EvCapsCheck f fc false;
                                       EvUnref f])))
  \/ (exists el pre,
        gst_auto_video_src_create_element_with_pretty_name w src f = Ok (Some el)
        /\ before_trial w src f pre
        /\ trial_ready w f = GST_STATE_CHANGE_SUCCESS
        /\ r = (Break, mkProbe (Some el) (errors st) (bus st ++ trial_messages w f)
                         (events st ++ pre ++ [EvSetReady f GST_STATE_CHANGE_SUCCESS])))
  \/ (exists el pre,
        gst_auto_video_src_create_element_with_pretty_name w src f = Ok (Some el)
        /\ before_trial w src f pre
        /\ is_success (trial_ready w f) = false
        /\ r = (Next, mkProbe (choice st)
                        (errors st ++ List.filter is_error (bus st ++ trial_messages w f))
                        (null_messages w f)
                        (events st ++ pre ++ [EvSetReady f (trial_ready w f);
                                              EvSetNull f; EvUnref f]))).
Proof.
  unfold probe_candidate, before_trial. intros H.
  destruct (gst_auto_video_src_create_element_with_pretty_name w src f)
    as [[el|]|]; cbn [bind] in H; try discriminate.
  - assert (T : forall pre,
               let s := mkProbe (choice st) (errors st) (bus st) (events st ++ pre) in
               (trial_ready w f = GST_STATE_CHANGE_SUCCESS
                /\ trial_activation w f el s
                   = (Break, mkProbe (Some el) (errors st)
                               (bus st ++ trial_messages w f)
                               (events st ++ pre
                                ++ [EvSetReady f GST_STATE_CHANGE_SUCCESS])))
               \/ (is_success (trial_ready w f) = false
                   /\ trial_activation w f el s
                      = (Next, mkProbe (choice st)
                                 (errors st ++ List.filter is_error
                                                 (bus st ++ trial_messages w f))
                                 (null_messages w f)
                                 (events st ++ pre
                                  ++ [EvSetReady f (trial_ready w f);
                                      EvSetNull f; EvUnref f])))).
    { intros pre s. unfold trial_activation, s.
      destruct (trial_ready w f) eqn:Er; cbn;
        rewrite <- ?app_assoc; auto. }
    destruct (filter_caps src) as [fc|].
    + destruct (gst_caps_can_intersect w fc (src_pad_caps w f)) eqn:Hc;
        cbn [negb] in H.
      * unfold log in H. cbn in H. rewrite <- app_assoc in H. cbn in H.
        destruct (T [EvCreate f true; EvCapsCheck f fc true]) as [[Hs E]|[Hs E]];
          cbn in E; rewrite E in H; injection H as <-.
        -- right. right. left. exists el, [EvCreate f true; EvCapsCheck f fc true].
           repeat split; eauto 8.
        -- right. right. right. exists el, [EvCreate f true; EvCapsCheck f fc true].
           repeat split; eauto 8.
      * injection H as <-. right. left. exists el, fc. unfold log. cbn.
        rewrite <- !app_assoc. auto.
    + unfold log in H. cbn in H.
      destruct (T [EvCreate f true]) as [[Hs E]|[Hs E]];
        cbn in E; rewrite E in H; injection H as <-.
      * right. right. left. exists el, [EvCreate f true]. repeat split; auto.
      * right. right. right. exists el, [EvCreate f true]. repeat split; auto.
  - injection H as <-. left. split; reflexivity.
Qed.

(** An invariant that may be lost when the loop breaks. *)
Lemma find_best_loop_invariant_until_break (I J : ProbeState -> Prop) :
  (forall st, I st -> J st) ->
  (forall f st st1, I st -> probe_candidate w src f st = Ok (Next, st1) -> I st1) ->
  (forall f st st1, I st -> probe_candidate w src f st = Ok (Break, st1) -> J st1) ->
  forall items st st',
    I st -> find_best_loop w src items st = Ok st' -> J st'.
Proof.
  intros HIJ Hnext Hbreak items.
  induction items as [|f items IH]; intros st st' Hi H.
  - cbn in H. injection H as <-. auto.
  - cbn [find_best_loop] in H.
    destruct (probe_candidate w src f st) as [[c st1]|] eqn:E;
      cbn [bind fst snd] in H; [|discriminate].
    destruct c.
    + injection H as <-. eauto.
    + eauto.
Qed.

End Iteration.

(* ===================================================================== *)
(** ** What a run of the loop keeps *)
(* ===================================================================== *)

Lemma created_ok_app (a b : list ProbeEvent) :
  created_ok (a ++ b) = (created_ok a ++ created_ok b)%list.
Proof. unfold created_ok. apply flat_map_app. Qed.

Lemma caps_checked_app (a b : list ProbeEvent) :
  caps_checked (a ++ b) = (caps_checked a ++ caps_checked b)%list.
Proof. unfold caps_checked. apply flat_map_app. Qed.

Lemma set_null_app (a b : list ProbeEvent) :
  set_null (a ++ b) = (set_null a ++ set_null b)%list.
Proof. unfold set_null. apply flat_map_app. Qed.

Lemma unreffed_app (a b : list ProbeEvent) :
  unreffed (a ++ b) = (unreffed a ++ unreffed b)%list.
Proof. unfold unreffed. apply flat_map_app. Qed.

#[local] Hint Rewrite created_ok_app caps_checked_app set_null_app unreffed_app
  : probe.

(** Reads the four cases of an iteration off [probe_candidate_shape]. *)
Ltac iteration_cases H :=
  let el := fresh "el" in
  let fc := fresh "fc" in
  let pre := fresh "pre" in
  let Hc := fresh "Hcreate" in
  let Hf := fresh "Hfilter" in
  let Hm := fresh "Hcaps" in
  let Hb := fresh "Hbefore" in
  let Hs := fresh "Hready" in
  let E := fresh "E" in
  apply probe_candidate_shape in H;
  destruct H as [(Hc & E)|[(el & fc & Hc & Hf & Hm & E)
                 |[(el & pre & Hc & Hb & Hs & E)|(el & pre & Hc & Hb & Hs & E)]]];
  [ | | destruct Hb as [(Hf & ->)|(fc & Hf & Hm & ->)]
      | destruct Hb as [(Hf & ->)|(fc & Hf & Hm & ->)] ];
  first [ discriminate E | injection E; intros; subst | subst ].

Section RunFacts.
Variable w : World.
Variable src : GstAutoVideoSrc.

Lemma created_element_factory (f : GstPluginFeature) (el : GstElement) :
  gst_auto_video_src_create_element_with_pretty_name w src f = Ok (Some el) ->
  el_factory el = name f.
Proof.
  unfold gst_auto_video_src_create_element_with_pretty_name.
  destruct (pretty_name (object_name src) (name f)); cbn [bind]; [|discriminate].
  destruct (factory_create w f a); intros H;
    [injection H as <-; reflexivity | discriminate].
Qed.

(** X6. Every element the loop creates is released again, and every element it
    drives to READY is set back to NULL, in the same order, the chosen one
    alone excepted. *)
Theorem rejected_elements_are_released (items : list GstPluginFeature)
    (st' : ProbeState) :
  find_best_loop w src items probe_start = Ok st' ->
  match choice st' with
  | None =>
      unreffed (events st') = created_ok (events st')
      /\ set_null (events st') = trials (events st')
  | Some el =>
      exists f, el_factory el = name f
        /\ created_ok (events st') = (unreffed (events st') ++ [f])%list
        /\ trials (events st') = (set_null (events st') ++ [f])%list
  end.
Proof.
  intros Hrun.
  apply (find_best_loop_invariant_until_break w src
           (fun s => choice s = None
                     /\ unreffed (events s) = created_ok (events s)
                     /\ set_null (events s) = trials (events s))
           (fun s => match choice s with
                     | None =>
                         unreffed (events s) = created_ok (events s)
                         /\ set_null (events s) = trials (events s)
                     | Some el =>
                         exists f, el_factory el = name f
                           /\ created_ok (events s) = (unreffed (events s) ++ [f])%list
                           /\ trials (events s) = (set_null (events s) ++ [f])%list
                     end))
    with (items := items) (st := probe_start); [ | | | | exact Hrun].
  - intros s (Hc & H1 & H2). rewrite Hc. auto.
  - intros f s s1 (Hc & H1 & H2) H. iteration_cases H; cbn;
      autorewrite with probe; cbn; rewrite ?H1, ?H2; auto.
  - intros f s s1 (Hc & H1 & H2) H. iteration_cases H; cbn;
      exists f; autorewrite with probe; cbn; rewrite ?H1, ?H2, ?app_nil_r;
      (split; [eapply created_element_factory; eassumption | auto]).
  - cbn. auto.
Qed.

End RunFacts.

Lemma rejected_elements_are_released_witness :
  exists st',
    find_best_loop Sample.two_drivers (Sample.facade Sample.two_drivers)
      [Sample.drvA; Sample.drvB] probe_start = Ok st'
    /\ match choice st' with
       | None =>
           unreffed (events st') = created_ok (events st')
           /\ set_null (events st') = trials (events st')
       | Some el =>
           exists f, el_factory el = name f
             /\ created_ok (events st') = (unreffed (events st') ++ [f])%list
             /\ trials (events st') = (set_null (events st') ++ [f])%list
       end.
Proof.
  eexists. split; [vm_compute; reflexivity|].
  apply (rejected_elements_are_released Sample.two_drivers
           (Sample.facade Sample.two_drivers) [Sample.drvA; Sample.drvB]).
  vm_compute. reflexivity.
Defined.

Section RunOrder.
Variable w : World.
Variable src : GstAutoVideoSrc.

Lemma probe_candidate_created_one (f : GstPluginFeature) (st : ProbeState)
    (r : control * ProbeState) :
  probe_candidate w src f st = Ok r ->
  created (events (snd r)) = (created (events st) ++ [f])%list
  /\ (fst r = Next -> choice (snd r) = choice st)
  /\ (fst r = Break -> exists el, choice (snd r) = Some el /\ el_factory el = name f).
Proof.
  intros H. iteration_cases H; cbn; autorewrite with probe; cbn;
    repeat split; auto; try discriminate;
    intros _; eexists; (split; [reflexivity|]);
    eapply created_element_factory; eassumption.
Qed.

Lemma find_best_loop_order (items : list GstPluginFeature) :
  forall st st',
    find_best_loop w src items st = Ok st' ->
    exists tried rest,
      items = (tried ++ rest)%list
      /\ created (events st') = (created (events st) ++ tried)%list
      /\ (choice st' = choice st \/
          exists el f pre, choice st' = Some el /\ tried = (pre ++ [f])%list
                           /\ el_factory el = name f)
      /\ (choice st = None -> choice st' = None -> rest = []).
Proof.
  induction items as [|f items IH]; intros st st' H.
  - cbn in H. injection H as <-. exists [], [].
    repeat split; auto; now rewrite app_nil_r.
  - cbn [find_best_loop] in H.
    destruct (probe_candidate w src f st) as [[c st1]|] eqn:E;
      cbn [bind fst snd] in H; [|discriminate].
    destruct (probe_candidate_created_one f st _ E) as (Hc & Hn & Hb). cbn in *.
    destruct c.
    + injection H as <-. destruct (Hb eq_refl) as (el & Hel & Hfac).
      exists [f], items. repeat split; auto.
      * right. exists el, f, []. auto.
      * intros _ Hnone. congruence.
    + destruct (IH st1 st' H) as (tried & rest & -> & Hcr & Hch & Hrest).
      exists (f :: tried), rest. repeat split; auto.
      * rewrite Hcr, Hc, <- app_assoc. reflexivity.
      * rewrite <- (Hn eq_refl).
        destruct Hch as [Hch|(el & g & pre & H1 & -> & H3)]; [now left|].
        right. exists el, g, (f :: pre). auto.
      * intros H0 H1. apply Hrest; [|exact H1]. rewrite (Hn eq_refl). exact H0.
Qed.

(** X7. The factories are called in the order of the ranked list, each once,
    without a gap: what was called is an initial segment of the list; it is
    the whole list when nothing was chosen, and otherwise it ends with the
    factory of the chosen element. *)
Theorem candidates_tried_in_order (st : ProbeState) :
  probe w src = Ok st ->
  exists rest,
    candidates w src = (created (events st) ++ rest)%list
    /\ match choice st with
       | None => rest = []
       | Some el => exists pre f, created (events st) = (pre ++ [f])%list
                                  /\ el_factory el = name f
       end.
Proof.
  unfold probe. intros H.
  destruct (find_best_loop_order _ _ _ H) as (tried & rest & Hl & Hc & Hch & Hrest).
  cbn in Hc. subst tried. exists rest. split; [exact Hl|].
  destruct (choice st) as [el|] eqn:Ec.
  - destruct Hch as [Hch|(el' & f & pre & H1 & H2 & H3)]; [discriminate|].
    injection H1 as <-. eauto.
  - now apply Hrest.
Qed.

End RunOrder.

Lemma candidates_tried_in_order_witness :
  let w := Sample.two_drivers in
  exists st,
    probe w (Sample.facade w) = Ok st
    /\ exists rest,
         candidates w (Sample.facade w) = (created (events st) ++ rest)%list
         /\ match choice st with
            | None => rest = []
            | Some el => exists pre f, created (events st) = (pre ++ [f])%list
                                       /\ el_factory el = name f
            end.
Proof.
  intros w. eexists. split; [vm_compute; reflexivity|].
  apply (candidates_tried_in_order w (Sample.facade w)).
  vm_compute. reflexivity.
Defined.

Section RunErrors.
Variable w : World.
Variable src : GstAutoVideoSrc.

Lemma posted_by_cons (f : GstPluginFeature) (items : list GstPluginFeature)
    (m : GstMessage) :
  posted_by w items m -> posted_by w (f :: items) m.
Proof. intros (g & Hg & H). exists g. split; [now right | exact H]. Qed.

Lemma find_best_loop_errors_origin (items : list GstPluginFeature) :
  forall st st',
    find_best_loop w src items st = Ok st' ->
    (forall m, In m (errors st') ->
       In m (errors st)
       \/ (is_error m = true /\ (In m (bus st) \/ posted_by w items m)))
    /\ (forall m, In m (bus st') -> In m (bus st) \/ posted_by w items m).
Proof.
  induction items as [|f items IH]; intros st st' H.
  - cbn in H. injection H as <-. auto.
  - cbn [find_best_loop] in H.
    destruct (probe_candidate w src f st) as [[c st1]|] eqn:E;
      cbn [bind fst snd] in H; [|discriminate].
    assert (Step :
      (forall m, In m (errors st1) ->
         In m (errors st)
         \/ (is_error m = true /\ (In m (bus st) \/ posted_by w [f] m)))
      /\ (forall m, In m (bus st1) -> In m (bus st) \/ posted_by w [f] m)).
    { iteration_cases E; cbn; split; intros m Hm; auto;
        rewrite ?in_app_iff in Hm;
        try (destruct Hm as [Hm|Hm]; [now left|
             apply filter_In in Hm as [Hm He]; apply in_app_iff in Hm;
             right; split; [exact He|];
             destruct Hm as [Hm|Hm]; [now left|
               right; exists f; split; [now left | now left]]]);
        try (destruct Hm as [Hm|Hm]; [now left|
             right; exists f; split; [now left | now left]]);
        try (right; exists f; split; [now left | now right]). }
    destruct Step as [S1 S2].
    assert (Widen : forall m, posted_by w [f] m -> posted_by w (f :: items) m).
    { intros m (g & [<-|[]] & Hg). exists f. split; [now left | exact Hg]. }
    destruct c.
    + injection H as <-. split; intros m Hm.
      * destruct (S1 m Hm) as [?|[He [?|?]]]; auto.
      * destruct (S2 m Hm) as [?|?]; auto.
    + destruct (IH st1 st' H) as [I1 I2]. split; intros m Hm.
      * destruct (I1 m Hm) as [Hm1|[He [Hm1|Hm1]]].
        -- destruct (S1 m Hm1) as [?|[He' [?|?]]]; auto.
        -- destruct (S2 m Hm1) as [?|?]; auto.
        -- right. split; [exact He|]. right. now apply posted_by_cons.
      * destruct (I2 m Hm) as [Hm1|Hm1].
        -- destruct (S2 m Hm1) as [?|?]; auto.
        -- right. now apply posted_by_cons.
Qed.

(** X8. Nothing but ERROR messages is recorded, and each recorded message was
    posted on the private bus by one of the candidates: messages of other
    types are dropped, and the prober makes up no error of its own. *)
Theorem recorded_errors_come_from_candidates (st : ProbeState) :
  probe w src = Ok st ->
  forall m, In m (errors st) ->
    is_error m = true /\ posted_by w (candidates w src) m.
Proof.
  unfold probe. intros H m Hm.
  destruct (find_best_loop_errors_origin _ _ _ H) as [H1 _].
  destruct (H1 m Hm) as [[]|[He [[]|Hp]]]. auto.
Qed.

End RunErrors.

Lemma recorded_errors_come_from_candidates_witness :
  let w := Sample.only_drvA in
  exists st,
    probe w (Sample.facade w) = Ok st
    /\ In Sample.busy (errors st)
    /\ is_error Sample.busy = true
    /\ posted_by w (candidates w (Sample.facade w)) Sample.busy.
Proof.
  intros w. eexists. split; [vm_compute; reflexivity|].
  split; [now left|].
  apply (recorded_errors_come_from_candidates w (Sample.facade w) _ eq_refl).
  now left.
Defined.

(* ===================================================================== *)
(** ** The filter that was written, and the candidates passed over *)
(* ===================================================================== *)

Section WrittenFilter.
Variable w : World.

Lemma no_filter_no_check (src : GstAutoVideoSrc) (items : list GstPluginFeature)
    (st' : ProbeState) :
  filter_caps src = None ->
  find_best_loop w src items probe_start = Ok st' ->
  caps_checked (events st') = []
  /\ trials (events st') = created_ok (events st').
Proof.
  intros Hf H.
  apply (find_best_loop_invariant w src
           (fun s => caps_checked (events s) = []
                     /\ trials (events s) = created_ok (events s)))
    with (items := items) (st := probe_start); [ | split; reflexivity | exact H].
  intros f s r [H1 H2] Hr. iteration_cases Hr; cbn; autorewrite with probe; cbn;
    rewrite ?H1, ?H2; try congruence; auto.
Qed.

(** X9. The caps written to filter-caps are the ones the next run of the prober
    uses: with caps written, every element it creates is checked against
    them and only elements that intersect them are driven to READY; with
    NULL written, no caps are checked at all and every created element is
    driven to READY. *)
Theorem written_filter_governs_probing (src : GstAutoVideoSrc)
    (value : option GstCaps) (items : list GstPluginFeature) (st' : ProbeState) :
  find_best_loop w
    (gst_auto_video_src_clear_kid w
       (gst_auto_video_src_set_property src PROP_CAPS value))
    items probe_start = Ok st' ->
  match value with
  | Some fc =>
      all_checked w fc (events st')
      /\ forall f, In f (trials (events st')) ->
           gst_caps_can_intersect w fc (src_pad_caps w f) = true
  | None =>
      caps_checked (events st') = []
      /\ trials (events st') = created_ok (events st')
  end.
Proof.
  set (src1 := gst_auto_video_src_clear_kid w
                 (gst_auto_video_src_set_property src PROP_CAPS value)).
  assert (Hf : filter_caps src1 = value).
  { unfold src1. now rewrite (proj1 (proj2 (clear_kid_keeps w _))). }
  intros H. destruct value as [fc|].
  - split.
    + apply (find_best_loop_invariant w src1
               (fun s => all_checked w fc (events s)))
        with (items := items) (st := probe_start); [ | | exact H].
      * intros f s r Hs Hr. eapply probe_candidate_checked; eauto.
      * intros g [].
    + apply (find_best_loop_invariant w src1
               (fun s => forall f, In f (trials (events s)) ->
                  gst_caps_can_intersect w fc (src_pad_caps w f) = true))
        with (items := items) (st := probe_start); [ | | exact H].
      * intros g s r Hs Hr f Hin.
        destruct (probe_candidate_trials w src1 g fc s r Hf Hr f Hin)
          as [H1|[-> H1]]; auto.
      * intros g [].
  - now apply (no_filter_no_check src1 items st').
Qed.

End WrittenFilter.

Lemma written_filter_governs_probing_witness :
  let w := Sample.with_h264 in
  exists st',
    find_best_loop w
      (gst_auto_video_src_clear_kid w
         (gst_auto_video_src_set_property (Sample.facade w) PROP_CAPS None))
      [Sample.h264cam; Sample.drvB] probe_start = Ok st'
    /\ caps_checked (events st') = []
    /\ trials (events st') = created_ok (events st').
Proof.
  intros w. eexists. split; [vm_compute; reflexivity|].
  apply (written_filter_governs_probing w (Sample.facade w) None
           [Sample.h264cam; Sample.drvB]).
  vm_compute. reflexivity.
Defined.

(** With the filter removed the H.264 camera, which the default filter
    excludes, is the element that gets bound. *)
Example h264cam_without_filter :
  let w := Sample.with_h264 in
  exists s1 s2,
    gst_auto_video_src_change_state w (Sample.facade w)
      GST_STATE_CHANGE_NULL_TO_READY = Ok (GST_STATE_CHANGE_SUCCESS, s1)
    /\ kid s1 = Some (mkElement "drvB" "autovideosrc0-actual-src-drvB" false)
    /\ gst_auto_video_src_change_state w
         (gst_auto_video_src_set_property (Sample.facade w) PROP_CAPS None)
         GST_STATE_CHANGE_NULL_TO_READY = Ok (GST_STATE_CHANGE_SUCCESS, s2)
    /\ kid s2 = Some (mkElement "h264cam" "autovideosrc0-actual-src-h264cam" false).
Proof. cbv zeta. do 2 eexists. repeat split; vm_compute; reflexivity. Qed.

Section PassedOver.
Variable w : World.
Variable src : GstAutoVideoSrc.

Lemma same_locals_refl (a : ProbeState) : same_locals a a.
Proof. repeat split. Qed.

Lemma same_locals_trans (a b c : ProbeState) :
  same_locals a b -> same_locals b c -> same_locals a c.
Proof. unfold same_locals. intuition congruence. Qed.

Lemma skipped_step (f : GstPluginFeature) (st : ProbeState) :
  skipped w src f = true ->
  exists st1, probe_candidate w src f st = Ok (Next, st1) /\ same_locals st1 st.
Proof.
  unfold skipped, probe_candidate. intros H.
  destruct (gst_auto_video_src_create_element_with_pretty_name w src f)
    as [[el|]|]; cbn [bind]; try discriminate.
  - destruct (filter_caps src) as [fc|]; [|discriminate]. rewrite H.
    eexists. split; [reflexivity | repeat split].
  - eexists. split; [reflexivity | repeat split].
Qed.

Lemma probe_candidate_same_locals (f : GstPluginFeature) (a b : ProbeState)
    (c : control) (a1 : ProbeState) :
  same_locals a b ->
  probe_candidate w src f a = Ok (c, a1) ->
  exists b1, probe_candidate w src f b = Ok (c, b1) /\ same_locals a1 b1.
Proof.
  intros (Hc & He & Hb) H. unfold probe_candidate, trial_activation in *.
  destruct (gst_auto_video_src_create_element_with_pretty_name w src f)
    as [[el|]|]; cbn [bind] in *; try discriminate.
  - destruct (filter_caps src) as [fc|];
      [destruct (negb (gst_caps_can_intersect w fc (src_pad_caps w f)))|];
      cbn in *; try destruct (is_success (trial_ready w f));
      injection H as <- <-; eexists; (split; [reflexivity|]);
      unfold same_locals; cbn; rewrite ?Hc, ?He, ?Hb; auto.
  - injection H as <- <-. eexists. split; [reflexivity|].
    unfold same_locals; cbn; auto.
Qed.

Lemma find_best_loop_without_skipped (items : list GstPluginFeature) :
  forall a b a',
    same_locals a b ->
    find_best_loop w src items a = Ok a' ->
    exists b',
      find_best_loop w src
        (List.filter (fun f => negb (skipped w src f)) items) b = Ok b'
      /\ same_locals a' b'.
Proof.
  induction items as [|f items IH]; intros a b a' Hab H.
  - cbn in *. injection H as <-. eauto.
  - cbn [find_best_loop List.filter] in *.
    destruct (skipped w src f) eqn:Hs; cbn [negb].
    + destruct (skipped_step f a Hs) as (a1 & E & Ha1).
      rewrite E in H. cbn [bind fst snd] in H.
      apply (IH a1 b a'); [|exact H].
      now apply (same_locals_trans a1 a b).
    + destruct (probe_candidate w src f a) as [[c a1]|] eqn:E;
        cbn [bind fst snd] in H; [|discriminate].
      destruct (probe_candidate_same_locals f a b c a1 Hab E) as (b1 & E' & Hb1).
      cbn [find_best_loop]. rewrite E'. cbn [bind fst snd]. destruct c.
      * injection H as <-. eauto.
      * now apply (IH a1 b1 a').
Qed.

Lemma find_best_loop_all_skipped (items : list GstPluginFeature) :
  Forall (fun f => skipped w src f = true) items ->
  forall st, exists st', find_best_loop w src items st = Ok st' /\ same_locals st' st.
Proof.
  induction 1 as [|f items Hf _ IH]; intros st.
  - exists st. split; [reflexivity | apply same_locals_refl].
  - destruct (skipped_step f st Hf) as (st1 & E & H1).
    destruct (IH st1) as (st' & E' & H').
    exists st'. cbn [find_best_loop]. rewrite E. cbn. split; [exact E'|].
    now apply (same_locals_trans st' st1 st).
Qed.

(** X10. The candidates the loop passes over (no element created, or caps that
    do not intersect the filter) have no part in the outcome: the run over
    the list without them ends with the same choice, the same recorded
    errors and the same bus. *)
Theorem passed_over_candidates_do_not_matter (items : list GstPluginFeature)
    (st : ProbeState) :
  find_best_loop w src items probe_start = Ok st ->
  exists st2,
    find_best_loop w src
      (List.filter (fun f => negb (skipped w src f)) items) probe_start = Ok st2
    /\ choice st2 = choice st /\ errors st2 = errors st /\ bus st2 = bus st.
Proof.
  intros H.
  destruct (find_best_loop_without_skipped items probe_start probe_start st
              (same_locals_refl _) H) as (st2 & E & (H1 & H2 & H3)).
  exists st2. auto.
Qed.

End PassedOver.

Lemma passed_over_candidates_do_not_matter_witness :
  let w := Sample.with_h264 in
  let src := Sample.facade w in
  exists st st2,
    find_best_loop w src [Sample.h264cam; Sample.drvB] probe_start = Ok st
    /\ find_best_loop w src
         (List.filter (fun f => negb (skipped w src f))
            [Sample.h264cam; Sample.drvB]) probe_start = Ok st2
    /\ choice st2 = choice st /\ errors st2 = errors st /\ bus st2 = bus st.
Proof.
  intros w src. eexists.
  destruct (passed_over_candidates_do_not_matter w src
              [Sample.h264cam; Sample.drvB] _ eq_refl) as (st2 & H).
  exists st2. split; [reflexivity | exact H].
Defined.

(* ===================================================================== *)
(** ** Detection, path by path *)
(* ===================================================================== *)

Lemma select_without_errors (w : World) (src : GstAutoVideoSrc) (st : ProbeState) :
  choice st = None -> errors st = [] ->
  select w src st = (Some (fallback w), gst_element_post_message src (not_found src)).
Proof.
  intros Hc He. unfold select, fallback. rewrite Hc, He. cbn.
  now destruct (fakesrc_has_sync w).
Qed.

(** [gst_auto_video_src_detect] after the prober has returned [el]. *)
Lemma detect_binds (w : World) (src src1 : GstAutoVideoSrc) (el : GstElement) :
  gst_auto_video_src_find_best w (gst_auto_video_src_clear_kid w src)
  = Ok (Some el, src1) ->
  gst_auto_video_src_detect w src
  = Ok (if ghost_pad_link_ok w el
        then (true, set_pad_target (gst_bin_add (set_kid src1 (Some el)) el) (Some el))
        else (false, GST_ELEMENT_ERROR
                       (set_pad_target (gst_bin_add (set_kid src1 (Some el)) el) None)
                       "LIBRARY" "INIT" "Failed to set target pad")).
Proof.
  intros H. unfold gst_auto_video_src_detect. rewrite H. cbn [bind fst snd].
  unfold gst_ghost_pad_set_target.
  destruct (ghost_pad_link_ok w el); reflexivity.
Qed.

(** The three ways [gst_auto_video_src_find_best] ends. *)
Lemma find_best_cases (w : World) (src : GstAutoVideoSrc)
    (r : option GstElement * GstAutoVideoSrc) :
  gst_auto_video_src_find_best w src = Ok r ->
  exists st, probe w src = Ok st
    /\ ((exists el, choice st = Some el /\ r = (Some el, src))
        \/ (exists first rest, choice st = None /\ errors st = first :: rest
              /\ r = (None, gst_element_post_message src first))
        \/ (choice st = None /\ errors st = []
            /\ r = (Some (fallback w), gst_element_post_message src (not_found src)))).
Proof.
  unfold gst_auto_video_src_find_best. destruct (probe w src) as [st|];
    cbn [bind]; [|discriminate].
  intros H. injection H as <-. exists st. split; [reflexivity|].
  destruct (choice st) as [el|] eqn:Ec.
  - left. exists el. unfold select. now rewrite Ec.
  - destruct (errors st) as [|first rest] eqn:Ee.
    + right. right. rewrite (select_without_errors w src st Ec Ee). auto.
    + right. left. exists first, rest. unfold select. now rewrite Ec, Ee.
Qed.

(** X11. When every candidate is passed over, because its factory creates
    nothing or its caps do not intersect the filter, nothing is recorded
    and detection takes the fallback path: the warning "Failed to find a
    usable video source" is posted and a fakesrc is bound, as if the
    registry had offered no candidate. *)
Theorem all_candidates_passed_over (w : World) (src : GstAutoVideoSrc) :
  Forall (fun f => skipped w src f = true) (candidates w src) ->
  exists s',
    gst_auto_video_src_detect w src = Ok (ghost_pad_link_ok w (fallback w), s')
    /\ kid s' = Some (fallback w)
    /\ posted s'
       = (posted src ++ not_found src
            :: if ghost_pad_link_ok w (fallback w) then [] else [target_failed src])%list.
Proof.
  intros Hall.
  destruct (clear_kid_keeps w src) as (Hn & Hf & Hpo & Hk).
  assert (Hall' : Forall (fun f => skipped w (gst_auto_video_src_clear_kid w src) f = true)
                    (candidates w src)).
  { eapply Forall_impl; [|exact Hall]. intros f. unfold skipped,
      gst_auto_video_src_create_element_with_pretty_name. now rewrite Hn, Hf. }
  destruct (find_best_loop_all_skipped w _ _ Hall' probe_start)
    as (st & Hrun & (Hc & He & _)).
  assert (Hfb : gst_auto_video_src_find_best w (gst_auto_video_src_clear_kid w src)
                = Ok (Some (fallback w),
                      gst_element_post_message (gst_auto_video_src_clear_kid w src)
                        (not_found (gst_auto_video_src_clear_kid w src)))).
  { unfold gst_auto_video_src_find_best, probe.
    change (candidates w (gst_auto_video_src_clear_kid w src)) with (candidates w src).
    rewrite Hrun. cbn [bind]. now rewrite select_without_errors. }
  rewrite (detect_binds w src _ _ Hfb).
  destruct (ghost_pad_link_ok w (fallback w)); eexists; (split; [reflexivity|]);
    cbn; rewrite Hpo; unfold not_found, target_failed; rewrite Hn;
    rewrite <- ?app_assoc; auto.
Qed.

Lemma all_candidates_passed_over_witness :
  let w := Sample.world [Sample.h264cam; Sample.alsasrc] Sample.always in
  exists s',
    gst_auto_video_src_detect w (Sample.facade w) = Ok (true, s')
    /\ kid s' = Some (fallback w)
    /\ posted s' = [not_found (Sample.facade w)].
Proof.
  intros w. apply (all_candidates_passed_over w (Sample.facade w)).
  repeat constructor.
Defined.

Lemma probe_ext (w : World) (s1 s2 : GstAutoVideoSrc) :
  object_name s1 = object_name s2 -> filter_caps s1 = filter_caps s2 ->
  probe w s1 = probe w s2.
Proof.
  intros Hn Hf. unfold probe.
  change (candidates w s1) with (candidates w s2).
  now apply find_best_loop_ext.
Qed.

(** Every path through [gst_auto_video_src_detect], by what the prober
    left in [choice] and [errors]. *)
Lemma detect_paths (w : World) (src : GstAutoVideoSrc) (ok : bool)
    (s' : GstAutoVideoSrc) :
  gst_auto_video_src_detect w src = Ok (ok, s') ->
  object_name s' = object_name src
  /\ filter_caps s' = filter_caps src
  /\ exists st, probe w src = Ok st
       /\ match choice st, errors st with
          | Some el, _ =>
              ok = ghost_pad_link_ok w el /\ kid s' = Some el
              /\ children s' = (children (gst_auto_video_src_clear_kid w src) ++ [el])%list
              /\ posted s' = (posted src ++ if ghost_pad_link_ok w el then []
                                            else [target_failed src])%list
          | None, first :: _ =>
              ok = false /\ kid s' = None
              /\ children s' = children (gst_auto_video_src_clear_kid w src)
              /\ posted s' = (posted src ++ [first; no_src src])%list
          | None, [] =>
              ok = ghost_pad_link_ok w (fallback w) /\ kid s' = Some (fallback w)
              /\ children s'
                 = (children (gst_auto_video_src_clear_kid w src) ++ [fallback w])%list
              /\ posted s' = (posted src ++ not_found src
                                :: if ghost_pad_link_ok w (fallback w) then []
                                   else [target_failed src])%list
          end.
Proof.
  destruct (clear_kid_keeps w src) as (Hn & Hf & Hpo & Hk).
  unfold gst_auto_video_src_detect, gst_auto_video_src_find_best.
  rewrite probe_clear_kid. destruct (probe w src) as [st|]; cbn [bind]; [|discriminate].
  intros H.
  destruct (choice st) as [el|] eqn:Ec; [|destruct (errors st) as [|first rest] eqn:Ee].
  - unfold select in H. rewrite Ec in H. cbn [fst snd] in H.
    unfold gst_ghost_pad_set_target in H.
    destruct (ghost_pad_link_ok w el) eqn:Hl; cbn [fst snd] in H;
      injection H as <- <-; cbn; rewrite ?Hn, ?Hf, ?Hpo;
      (split; [reflexivity|]); (split; [reflexivity|]);
      exists st; rewrite Ec, ?Hl; unfold target_failed; rewrite ?app_nil_r; auto.
  - rewrite (select_without_errors w _ st Ec Ee) in H. cbn [fst snd] in H.
    unfold gst_ghost_pad_set_target in H.
    destruct (ghost_pad_link_ok w (fallback w)) eqn:Hl; cbn [fst snd] in H;
      injection H as <- <-; cbn; rewrite ?Hn, ?Hf, ?Hpo;
      (split; [reflexivity|]); (split; [reflexivity|]);
      exists st; rewrite Ec, Ee, ?Hl; unfold target_failed, not_found;
      rewrite ?Hn, <- ?app_assoc; auto.
  - unfold select in H. rewrite Ec, Ee in H. cbn [fst snd] in H.
    injection H as <- <-. cbn. rewrite ?Hn, ?Hf, ?Hpo, ?Hk.
    split; [reflexivity|]. split; [reflexivity|].
    exists st. rewrite Ec, Ee. unfold no_src. rewrite <- ?app_assoc. auto.
Qed.

Lemma detect_defined (w : World) (src : GstAutoVideoSrc) (st : ProbeState) :
  probe w src = Ok st ->
  exists ok s', gst_auto_video_src_detect w src = Ok (ok, s').
Proof.
  intros H. unfold gst_auto_video_src_detect, gst_auto_video_src_find_best.
  rewrite probe_clear_kid, H. cbn [bind].
  destruct (fst (select w _ st));
    [destruct (fst (gst_ghost_pad_set_target w _ _))|]; do 2 eexists; reflexivity.
Qed.

(** X12. What a detection posts on the facade.  One that succeeds posts nothing,
    or the warning of the fallback.  One that fails ends with an error of
    the facade itself: "Failed to set target pad", alone or after the
    warning, or "Failed to find a supported video source" after the
    forwarded message, which is of type ERROR. *)
Theorem detect_posts (w : World) (src : GstAutoVideoSrc) (ok : bool)
    (s' : GstAutoVideoSrc) :
  gst_auto_video_src_detect w src = Ok (ok, s') ->
  (ok = true
   /\ (posted s' = posted src \/ posted s' = (posted src ++ [not_found src])%list))
  \/ (ok = false
      /\ (posted s' = (posted src ++ [target_failed src])%list
          \/ posted s' = (posted src ++ [not_found src; target_failed src])%list
          \/ exists first, is_error first = true
               /\ posted s' = (posted src ++ [first; no_src src])%list)).
Proof.
  intros H. destruct (detect_paths w src ok s' H) as (_ & _ & st & Hp & Hcase).
  destruct (choice st) as [el|] eqn:Ec; [|destruct (errors st) as [|first rest] eqn:Ee].
  - destruct Hcase as (-> & _ & _ & Hpo).
    destruct (ghost_pad_link_ok w el); rewrite Hpo, ?app_nil_r; auto.
  - destruct Hcase as (-> & _ & _ & Hpo).
    destruct (ghost_pad_link_ok w (fallback w)); rewrite Hpo; auto.
  - destruct Hcase as (-> & _ & _ & Hpo). right. split; [reflexivity|].
    right. right. exists first. split; [|exact Hpo].
    unfold probe in Hp.
    destruct (find_best_loop_errors_origin w src _ _ _ Hp) as [H1 _].
    destruct (H1 first) as [[]|[He _]]; [rewrite Ee; now left | exact He].
Qed.

Lemma detect_posts_witness :
  let w := Sample.only_drvA in
  exists s',
    gst_auto_video_src_detect w (Sample.facade w) = Ok (false, s')
    /\ ((false = true
         /\ (posted s' = posted (Sample.facade w)
             \/ posted s' = (posted (Sample.facade w)
                             ++ [not_found (Sample.facade w)])%list))
        \/ (false = false
            /\ (posted s' = (posted (Sample.facade w)
                             ++ [target_failed (Sample.facade w)])%list
                \/ posted s' = (posted (Sample.facade w)
                                ++ [not_found (Sample.facade w);
                                    target_failed (Sample.facade w)])%list
                \/ exists first, is_error first = true
                     /\ posted s' = (posted (Sample.facade w)
                                     ++ [first; no_src (Sample.facade w)])%list))).
Proof.
  intros w. eexists. split; [vm_compute; reflexivity|].
  apply (detect_posts w (Sample.facade w)). vm_compute. reflexivity.
Defined.

(** X13. What was bound before has no part in a detection: two facades with the
    same name and the same filter, whatever their kid, bin and ghost pad,
    end with the same verdict, the same kid and the same new messages. *)
Theorem detection_forgets_previous_kid (w : World) (s1 s2 : GstAutoVideoSrc)
    (ok : bool) (s1' : GstAutoVideoSrc) :
  object_name s1 = object_name s2 -> filter_caps s1 = filter_caps s2 ->
  gst_auto_video_src_detect w s1 = Ok (ok, s1') ->
  exists s2',
    gst_auto_video_src_detect w s2 = Ok (ok, s2')
    /\ kid s2' = kid s1'
    /\ exists new, posted s1' = (posted s1 ++ new)%list
                   /\ posted s2' = (posted s2 ++ new)%list.
Proof.
  intros Hn Hf H1.
  destruct (detect_paths w s1 ok s1' H1) as (_ & _ & st & Hp & Hc1).
  assert (Hp2 : probe w s2 = Ok st) by (rewrite <- Hp; symmetry; now apply probe_ext).
  destruct (detect_defined w s2 st Hp2) as (ok2 & s2' & H2).
  destruct (detect_paths w s2 ok2 s2' H2) as (_ & _ & st2 & Hp2' & Hc2).
  rewrite Hp2 in Hp2'. injection Hp2' as <-.
  unfold target_failed, no_src, not_found in *. rewrite <- Hn in Hc2.
  destruct (choice st) as [el|]; [|destruct (errors st) as [|first rest]];
    destruct Hc1 as (-> & K1 & _ & P1), Hc2 as (-> & K2 & _ & P2);
    exists s2'; (split; [exact H2|]); (split; [congruence|]); eauto.
Qed.

Lemma detection_forgets_previous_kid_witness :
  let w := Sample.two_drivers in
  exists s1' s2',
    gst_auto_video_src_detect w (Sample.facade w) = Ok (true, s1')
    /\ gst_auto_video_src_detect w bound_to_v4l2 = Ok (true, s2')
    /\ kid s2' = kid s1'
    /\ exists new, posted s1' = (posted (Sample.facade w) ++ new)%list
                   /\ posted s2' = (posted bound_to_v4l2 ++ new)%list.
Proof.
  intros w. eexists.
  destruct (detection_forgets_previous_kid w (Sample.facade w) bound_to_v4l2
              true _ eq_refl eq_refl eq_refl) as (s2' & H).
  exists s2'. split; [reflexivity | exact H].
Defined.

(* ===================================================================== *)
(** ** The bin, the configuration, disposal *)
(* ===================================================================== *)

Lemma element_eqb_refl (e : GstElement) : element_eqb e e = true.
Proof.
  unfold element_eqb. now rewrite !String.eqb_refl, Bool.eqb_reflx.
Qed.

Lemma clear_kid_empties_bin (w : World) (src : GstAutoVideoSrc) :
  bin_holds_kid src -> children (gst_auto_video_src_clear_kid w src) = [].
Proof.
  unfold bin_holds_kid, gst_auto_video_src_clear_kid, gst_bin_remove.
  destruct src as [nm k ch t fc p]; cbn. destruct k as [k|]; cbn; intros ->; cbn.
  - rewrite element_eqb_refl. cbn.
    destruct t as [t|]; cbn; [destruct (bin_remove_unlinks w && element_eqb t k)|];
      reflexivity.
  - reflexivity.
Qed.

Lemma reset_keeps_bin (w : World) (src : GstAutoVideoSrc) :
  bin_holds_kid src -> bin_holds_kid (gst_auto_video_src_reset w src).
Proof.
  intros H. pose proof (clear_kid_empties_bin w src H) as Hc.
  unfold bin_holds_kid, gst_auto_video_src_reset, gst_ghost_pad_set_target.
  destruct (ghost_pad_link_ok w (make_fakesrc "tempsrc")); cbn; now rewrite Hc.
Qed.

(** X14. The bin of the facade holds its kid and nothing else, from construction
    on and through every state change, property write and disposal: the
    old element is out of the bin before a new one comes in. *)
Theorem bin_holds_only_the_kid (w : World) :
  (forall obj_name, bin_holds_kid (gst_auto_video_src_init w obj_name))
  /\ (forall src transition ret s',
        bin_holds_kid src ->
        gst_auto_video_src_change_state w src transition = Ok (ret, s') ->
        bin_holds_kid s')
  /\ (forall src id value,
        bin_holds_kid src ->
        bin_holds_kid (gst_auto_video_src_set_property src id value))
  /\ (forall src,
        bin_holds_kid src ->
        bin_holds_kid (gst_auto_video_src_dispose w src)
        /\ children (gst_auto_video_src_dispose w src) = []).
Proof.
  split; [|split; [|split]].
  - intros obj_name.
    assert (H0 : bin_holds_kid (mkSrc obj_name None [] None None [])) by reflexivity.
    apply (reset_keeps_bin w) in H0. exact H0.
  - intros src transition ret s' Hinv H.
    assert (Hdet : forall ok s1, gst_auto_video_src_detect w src = Ok (ok, s1) ->
                     bin_holds_kid s1).
    { intros ok s1 Hd.
      destruct (detect_paths w src ok s1 Hd) as (_ & _ & st & _ & Hc).
      pose proof (clear_kid_empties_bin w src Hinv) as He.
      unfold bin_holds_kid.
      destruct (choice st) as [el|]; [|destruct (errors st)];
        destruct Hc as (_ & -> & -> & _); now rewrite He. }
    unfold gst_auto_video_src_change_state, change_state_chain_up in H.
    destruct transition; try (injection H as <- <-; auto; fail).
    + destruct (gst_auto_video_src_detect w src) as [[ok s1]|] eqn:Hd;
        cbn [bind fst snd] in H; [|discriminate].
      destruct ok; cbn [negb] in H; injection H as <- <-; eauto.
    + injection H as <- <-. now apply reset_keeps_bin.
  - intros src id value H. destruct id; exact H.
  - intros src H. pose proof (clear_kid_empties_bin w src H) as He.
    destruct (clear_kid_keeps w src) as (_ & _ & _ & Hk).
    unfold bin_holds_kid, gst_auto_video_src_dispose. cbn. rewrite Hk, He. auto.
Qed.

Lemma bin_holds_only_the_kid_witness :
  let w := Sample.two_drivers in
  exists s',
    gst_auto_video_src_change_state w (Sample.facade w)
      GST_STATE_CHANGE_NULL_TO_READY = Ok (GST_STATE_CHANGE_SUCCESS, s')
    /\ bin_holds_kid s'.
Proof.
  intros w. eexists. split; [vm_compute; reflexivity|].
  apply (proj1 (proj2 (bin_holds_only_the_kid w)) (Sample.facade w)
           GST_STATE_CHANGE_NULL_TO_READY GST_STATE_CHANGE_SUCCESS).
  - apply (proj1 (bin_holds_only_the_kid w)).
  - vm_compute. reflexivity.
Defined.

(** X15. No state change touches the name or the filter of the facade, and none
    takes back a message: what was posted stays, new messages come after.
    Only NULL_TO_READY posts; the four transitions between READY and
    PLAYING return what the parent class returns and leave the facade as
    it is. *)
Theorem change_state_keeps_configuration (w : World) (src : GstAutoVideoSrc)
    (transition : GstStateChange) (ret : GstStateChangeReturn)
    (s' : GstAutoVideoSrc) :
  gst_auto_video_src_change_state w src transition = Ok (ret, s') ->
  object_name s' = object_name src
  /\ gst_auto_video_src_get_property s' PROP_CAPS
     = gst_auto_video_src_get_property src PROP_CAPS
  /\ (exists new, posted s' = (posted src ++ new)%list)
  /\ (transition <> GST_STATE_CHANGE_NULL_TO_READY -> posted s' = posted src)
  /\ (transition <> GST_STATE_CHANGE_NULL_TO_READY ->
      transition <> GST_STATE_CHANGE_READY_TO_NULL ->
      s' = src /\ ret = parent_change_state w transition).
Proof.
  intros H. unfold gst_auto_video_src_change_state, change_state_chain_up in H.
  assert (Same : s' = src -> ret = parent_change_state w transition ->
                 transition <> GST_STATE_CHANGE_READY_TO_NULL ->
                 object_name s' = object_name src
                 /\ gst_auto_video_src_get_property s' PROP_CAPS
                    = gst_auto_video_src_get_property src PROP_CAPS
                 /\ (exists new, posted s' = (posted src ++ new)%list)
                 /\ (transition <> GST_STATE_CHANGE_NULL_TO_READY ->
                     posted s' = posted src)
                 /\ (transition <> GST_STATE_CHANGE_NULL_TO_READY ->
                     transition <> GST_STATE_CHANGE_READY_TO_NULL ->
                     s' = src /\ ret = parent_change_state w transition)).
  { intros -> -> _. repeat split; auto. exists []. now rewrite app_nil_r. }
  destruct transition; try (injection H as <- <-; apply Same; congruence).
  - destruct (gst_auto_video_src_detect w src) as [[ok s1]|] eqn:Hd;
      cbn [bind fst snd] in H; [|discriminate].
    destruct (detect_paths w src ok s1 Hd) as (Hn & Hf & st & _ & Hc).
    assert (Hnew : exists new, posted s1 = (posted src ++ new)%list).
    { destruct (choice st) as [el|]; [|destruct (errors st)];
        destruct Hc as (_ & _ & _ & ->); eauto. }
    destruct ok; cbn [negb] in H; injection H as <- <-;
      repeat split; auto; intros; congruence.
  - injection H as <- <-.
    destruct (reset_keeps w src) as (Hn & Hf & Hpo & _).
    repeat split; auto; try (intros; congruence).
    exists []. now rewrite app_nil_r.
Qed.

Lemma change_state_keeps_configuration_witness :
  let w := Sample.only_drvA in
  exists ret s',
    gst_auto_video_src_change_state w (Sample.facade w)
      GST_STATE_CHANGE_NULL_TO_READY = Ok (ret, s')
    /\ object_name s' = object_name (Sample.facade w)
    /\ gst_auto_video_src_get_property s' PROP_CAPS
       = gst_auto_video_src_get_property (Sample.facade w) PROP_CAPS.
Proof.
  intros w. do 2 eexists. split; [vm_compute; reflexivity|].
  pose proof (change_state_keeps_configuration w (Sample.facade w)
                GST_STATE_CHANGE_NULL_TO_READY _ _ eq_refl) as (H1 & H2 & _).
  split; [exact H1 | exact H2].
Defined.

(** X16. Disposal leaves no kid and no filter behind and may run twice: the
    second run finds nothing to release and changes nothing. *)
Theorem dispose_is_idempotent (w : World) (src : GstAutoVideoSrc) :
  kid (gst_auto_video_src_dispose w src) = None
  /\ filter_caps (gst_auto_video_src_dispose w src) = None
  /\ posted (gst_auto_video_src_dispose w src) = posted src
  /\ (forall k, kid src = Some k ->
        ~ In k (children (gst_auto_video_src_dispose w src)))
  /\ gst_auto_video_src_dispose w (gst_auto_video_src_dispose w src)
     = gst_auto_video_src_dispose w src.
Proof.
  destruct (clear_kid_keeps w src) as (Hn & Hf & Hpo & Hk).
  unfold gst_auto_video_src_dispose. cbn [kid filter_caps posted children].
  repeat split; auto.
  - intros k Ek Hin. unfold gst_auto_video_src_clear_kid, gst_bin_remove in Hin.
    rewrite Ek in Hin.
    assert (Hc : In k (List.filter (fun c => negb (element_eqb c k)) (children src))).
    { destruct src as [nm k0 ch t fc p]; cbn in *.
      destruct t as [t|]; cbn in Hin;
        [destruct (bin_remove_unlinks w && element_eqb t k); cbn in Hin|];
        exact Hin. }
    apply filter_In in Hc as [_ Hc]. rewrite element_eqb_refl in Hc. discriminate.
  - fold (gst_auto_video_src_dispose w src).
    set (d := gst_auto_video_src_dispose w src).
    assert (Hkd : kid d = None) by (unfold d, gst_auto_video_src_dispose; exact Hk).
    assert (Hcd : gst_auto_video_src_clear_kid w d = d)
      by (unfold gst_auto_video_src_clear_kid; now rewrite Hkd).
    rewrite Hcd. unfold d, gst_auto_video_src_dispose. reflexivity.
Qed.

Lemma dispose_is_idempotent_witness :
  (forall k, kid bound_to_v4l2 = Some k ->
     ~ In k (children (gst_auto_video_src_dispose Sample.two_drivers bound_to_v4l2)))
  /\ gst_auto_video_src_dispose Sample.two_drivers
       (gst_auto_video_src_dispose Sample.two_drivers bound_to_v4l2)
     = gst_auto_video_src_dispose Sample.two_drivers bound_to_v4l2.
Proof.
  exact (proj2 (proj2 (proj2 (dispose_is_idempotent Sample.two_drivers bound_to_v4l2)))).
Defined.

(* ===================================================================== *)
(** ** The element the loop chooses *)
(* ===================================================================== *)

Lemma find_best_loop_choice (w : World) (src : GstAutoVideoSrc)
    (items : list GstPluginFeature) :
  forall st st' el,
    find_best_loop w src items st = Ok st' ->
    choice st = None -> choice st' = Some el ->
    exists f,
      In f items
      /\ gst_auto_video_src_create_element_with_pretty_name w src f = Ok (Some el)
      /\ trial_ready w f = GST_STATE_CHANGE_SUCCESS
      /\ forall fc, filter_caps src = Some fc ->
           gst_caps_can_intersect w fc (src_pad_caps w f) = true.
Proof.
  induction items as [|f items IH]; intros st st' el H Hnone Hsome.
  - cbn in H. injection H as <-. congruence.
  - cbn [find_best_loop] in H.
    destruct (probe_candidate w src f st) as [[c st1]|] eqn:E;
      cbn [bind fst snd] in H; [|discriminate].
    destruct c.
    + injection H as <-. exists f. split; [now left|].
      iteration_cases E; cbn in Hsome; injection Hsome as <-;
        repeat split; auto; intros fc' Hfc'; congruence.
    + assert (Hn1 : choice st1 = None)
        by (iteration_cases E; cbn; exact Hnone).
      destruct (IH st1 st' el H Hn1 Hsome) as (g & Hg & Hrest).
      exists g. split; [now right | exact Hrest].
Qed.

(** X17. The element the loop chooses is never one it should have rejected: it
    was created by a factory of the list, its caps intersect the filter
    when one is set, and its change to READY returned SUCCESS; a return of
    ASYNC or NO_PREROLL does not make a choice. *)
Theorem chosen_element_is_sound (w : World) (src : GstAutoVideoSrc)
    (st : ProbeState) (el : GstElement) :
  probe w src = Ok st -> choice st = Some el ->
  exists f,
    In f (candidates w src)
    /\ gst_auto_video_src_create_element_with_pretty_name w src f = Ok (Some el)
    /\ trial_ready w f = GST_STATE_CHANGE_SUCCESS
    /\ forall fc, filter_caps src = Some fc ->
         gst_caps_can_intersect w fc (src_pad_caps w f) = true.
Proof.
  unfold probe. intros H Hc.
  now apply (find_best_loop_choice w src _ probe_start st el H).
Qed.

Lemma chosen_element_is_sound_witness :
  let w := Sample.two_drivers in
  let el := mkElement "drvB" "autovideosrc0-actual-src-drvB" false in
  exists f,
    In f (candidates w (Sample.facade w))
    /\ gst_auto_video_src_create_element_with_pretty_name w (Sample.facade w) f
       = Ok (Some el)
    /\ trial_ready w f = GST_STATE_CHANGE_SUCCESS
    /\ forall fc, filter_caps (Sample.facade w) = Some fc ->
         gst_caps_can_intersect w fc (src_pad_caps w f) = true.
Proof.
  intros w el.
  apply (chosen_element_is_sound w (Sample.facade w) _ el eq_refl eq_refl).
Defined.

(* ===================================================================== *)
(** ** Which error is forwarded *)
(* ===================================================================== *)



Section ErrorList.
Variable w : World.
Variable src : GstAutoVideoSrc.





End ErrorList.



(* ===================================================================== *)
(** ** The default filter at work *)
(* ===================================================================== *)


Section FilterAtWork.
Variable w : World.
Variable src : GstAutoVideoSrc.
Variable fc : GstCaps.
Hypothesis Hfc : filter_caps src = Some fc.




End FilterAtWork.



(** In that run the camera that only gives H.264 is checked and excluded,
    drvB is checked and chosen, and drvA is not reached. *)
Example default_filter_run :
  let w := Sample.with_h264 in
  exists st',
    find_best_loop w
      (gst_auto_video_src_clear_kid w (gst_auto_video_src_init w "autovideosrc0"))
      [Sample.h264cam; Sample.drvB; Sample.drvA] probe_start = Ok st'
    /\ caps_checks (events st')
       = [(Sample.h264cam, raw_caps, false); (Sample.drvB, raw_caps, true)]
    /\ trials (events st') = [Sample.drvB].
Proof. cbv zeta. eexists. repeat split; vm_compute; reflexivity. Qed.

(* ===================================================================== *)
(** ** The instance name, for every factory name *)
(* ===================================================================== *)

(** X5. The only factory name for which no instance name can be formed is
    "src" itself: the NUL of the suffix rule would be written before the
    string.  For every other name, shorter than four characters or not,
    the instance name is the facade name, "-actual-src-" and the marker of
    the suffix rule followed by the prefix rule. *)
Theorem instance_name_undefined_iff (w : World) (src : GstAutoVideoSrc)
    (f : GstPluginFeature) :
  (pretty_name (object_name src) (name f) = Undefined <-> name f = "src")
  /\ (gst_auto_video_src_create_element_with_pretty_name w src f = Undefined
      <-> name f = "src")
  /\ (name f <> "src" ->
      pretty_name (object_name src) (name f)
      = Ok (object_name src ++ "-actual-src-" ++ Spec.marker (name f))).
Proof.
  assert (Hname : pretty_name (object_name src) (name f) = Undefined
                  <-> name f = "src").
  { rewrite <- pretty_marker_undefined. unfold pretty_name.
    destruct (pretty_marker (name f)); cbn [bind]; split; congruence. }
  split; [exact Hname|]. split; [apply create_undefined|].
  intros Hn.
  assert (Hm : pretty_marker (name f) = Ok (Spec.marker (name f))).
  { unfold pretty_marker, Spec.marker. rewrite has_suffix_ends_in.
    destruct (Spec.ends_in (name f) "src") eqn:Ee.
    - destruct (strlen (name f) <? 4)%nat eqn:El.
      + exfalso. apply Hn, pretty_marker_undefined. unfold pretty_marker.
        now rewrite has_suffix_ends_in, Ee, El.
      + cbn [bind]. rewrite truncate_substring.
        unfold Spec.starts_with, Spec.remove_last, Spec.remove_first, strlen.
        now rewrite has_prefix_stdlib, offset_substring.
    - cbn [bind]. unfold Spec.starts_with, Spec.remove_first.
      now rewrite has_prefix_stdlib, offset_substring. }
  unfold pretty_name. now rewrite Hm.
Qed.

Lemma instance_name_undefined_iff_witness :
  "gst" <> "src"
  /\ pretty_name "autovideosrc0" "gst" = Ok "autovideosrc0-actual-src-".
Proof.
  split; [discriminate|].
  apply (proj2 (proj2 (instance_name_undefined_iff Sample.two_drivers
                         (Sample.facade Sample.two_drivers)
                         (mkFeature GST_TYPE_ELEMENT_FACTORY "gst" 256 "Source/Video")))).
  discriminate.
Defined.

(* ===================================================================== *)
(** ** Nothing eligible in the registry *)
(* ===================================================================== *)

(** C5 (amended). When the registry query returns nothing, detection posts
    the warning "Failed to find a usable video source", one warning and no
    more, and binds a new fakesrc, "fake-video-src", as kid.  If the ghost
    pad links to it, it becomes the target, no error is posted, detection
    succeeds and the transition returns what the parent class returns:
    the activation succeeds when the parent's does.  If the ghost pad does
    not link to it, "Failed to set target pad" follows the warning, the
    ghost pad has no target and the transition fails. *)
Theorem empty_registry_falls_back (w : World) (src : GstAutoVideoSrc) :
  gst_registry_feature_filter w gst_auto_video_src_factory_filter src = [] ->
  exists s',
    gst_auto_video_src_detect w src = Ok (ghost_pad_link_ok w (fallback w), s')
    /\ kid s' = Some (fallback w)
    /\ is_fakesrc (fallback w) = true
    /\ fallback w <> tempsrc
    /\ List.filter is_warning (posted s')
       = (List.filter is_warning (posted src) ++ [not_found src])%list
    /\ (ghost_pad_link_ok w (fallback w) = true ->
        pad_target s' = Some (fallback w)
        /\ posted s' = (posted src ++ [not_found src])%list
        /\ List.filter is_error (posted s') = List.filter is_error (posted src)
        /\ gst_auto_video_src_change_state w src GST_STATE_CHANGE_NULL_TO_READY
           = Ok (parent_change_state w GST_STATE_CHANGE_NULL_TO_READY, s')
        /\ (parent_change_state w GST_STATE_CHANGE_NULL_TO_READY
            = GST_STATE_CHANGE_SUCCESS ->
            gst_auto_video_src_change_state w src GST_STATE_CHANGE_NULL_TO_READY
            = Ok (GST_STATE_CHANGE_SUCCESS, s')))
    /\ (ghost_pad_link_ok w (fallback w) = false ->
        pad_target s' = None
        /\ posted s' = (posted src ++ [not_found src; target_failed src])%list
        /\ List.filter is_error (posted s')
           = (List.filter is_error (posted src) ++ [target_failed src])%list
        /\ gst_auto_video_src_change_state w src GST_STATE_CHANGE_NULL_TO_READY
           = Ok (GST_STATE_CHANGE_FAILURE, s')).
Proof.
  intros Hq.
  destruct (detect_nothing_eligible w src Hq) as (s' & Hd & Hk & Ht & Hpo).
  exists s'. split; [exact Hd|]. split; [exact Hk|]. split; [reflexivity|].
  split; [discriminate|]. split.
  - rewrite Hpo, filter_app. cbn.
    destruct (ghost_pad_link_ok w (fallback w)); reflexivity.
  - unfold gst_auto_video_src_change_state. rewrite Hd. cbn [bind fst snd].
    split; intros Hl; rewrite Hl in *; cbn [negb].
    + repeat split; auto.
      * rewrite Hpo, filter_app. cbn. now rewrite app_nil_r.
      * intros Hpar. unfold change_state_chain_up. now rewrite Hpar.
    + repeat split; auto.
      rewrite Hpo, filter_app. reflexivity.
Qed.

Lemma empty_registry_falls_back_witness :
  let w := Sample.nothing in
  let src := Sample.facade w in
  exists s',
    gst_auto_video_src_detect w src = Ok (true, s')
    /\ kid s' = Some (fallback w)
    /\ is_fakesrc (fallback w) = true
    /\ fallback w <> tempsrc
    /\ List.filter is_warning (posted s')
       = (List.filter is_warning (posted src) ++ [not_found src])%list
    /\ (true = true ->
        pad_target s' = Some (fallback w)
        /\ posted s' = (posted src ++ [not_found src])%list
        /\ List.filter is_error (posted s') = List.filter is_error (posted src)
        /\ gst_auto_video_src_change_state w src GST_STATE_CHANGE_NULL_TO_READY
           = Ok (parent_change_state w GST_STATE_CHANGE_NULL_TO_READY, s')
        /\ (parent_change_state w GST_STATE_CHANGE_NULL_TO_READY
            = GST_STATE_CHANGE_SUCCESS ->
            gst_auto_video_src_change_state w src GST_STATE_CHANGE_NULL_TO_READY
            = Ok (GST_STATE_CHANGE_SUCCESS, s')))
    /\ (true = false ->
        pad_target s' = None
        /\ posted s' = (posted src ++ [not_found src; target_failed src])%list
        /\ List.filter is_error (posted s')
           = (List.filter is_error (posted src) ++ [target_failed src])%list
        /\ gst_auto_video_src_change_state w src GST_STATE_CHANGE_NULL_TO_READY
           = Ok (GST_STATE_CHANGE_FAILURE, s')).
Proof.
  intros w src. apply (empty_registry_falls_back w src). vm_compute. reflexivity.
Defined.

(** With nothing eligible in the registry the activation does not always
    succeed with no error posted: where the ghost pad does not link to the
    fallback element the transition fails and an error follows the
    warning; where the parent class fails the transition fails although
    detection succeeded. *)
Lemma empty_registry_activation_may_fail :
  (let w := Sample.nothing_unlinkable in
   let src := Sample.facade w in
   gst_registry_feature_filter w gst_auto_video_src_factory_filter src = []
   /\ exists s',
        gst_auto_video_src_change_state w src GST_STATE_CHANGE_NULL_TO_READY
        = Ok (GST_STATE_CHANGE_FAILURE, s')
        /\ List.filter is_error (posted s') = [target_failed src])
  /\ (let w := with_parent Sample.nothing (fun _ => GST_STATE_CHANGE_FAILURE) in
      let src := Sample.facade w in
      gst_registry_feature_filter w gst_auto_video_src_factory_filter src = []
      /\ exists s',
           gst_auto_video_src_detect w src = Ok (true, s')
           /\ gst_auto_video_src_change_state w src GST_STATE_CHANGE_NULL_TO_READY
              = Ok (GST_STATE_CHANGE_FAILURE, s')).
Proof.
  cbv zeta. split; (split; [reflexivity|]); eexists;
    repeat split; vm_compute; reflexivity.
Qed.

(* ===================================================================== *)
(** ** The endpoint through the life of the facade *)
(* ===================================================================== *)

Lemma detect_paths_target (w : World) (src : GstAutoVideoSrc) (ok : bool)
    (s' : GstAutoVideoSrc) :
  gst_auto_video_src_detect w src = Ok (ok, s') ->
  exists st, probe w src = Ok st
    /\ match choice st, errors st with
       | Some el, _ =>
           pad_target s' = if ghost_pad_link_ok w el then Some el else None
       | None, _ :: _ =>
           pad_target s' = pad_target (gst_auto_video_src_clear_kid w src)
       | None, [] =>
           pad_target s' = if ghost_pad_link_ok w (fallback w)
                           then Some (fallback w) else None
       end.
Proof.
  unfold gst_auto_video_src_detect, gst_auto_video_src_find_best.
  rewrite probe_clear_kid. destruct (probe w src) as [st|]; cbn [bind]; [|discriminate].
  intros H. exists st. split; [reflexivity|].
  destruct (choice st) as [el|] eqn:Ec; [|destruct (errors st) as [|first rest] eqn:Ee].
  - unfold select in H. rewrite Ec in H. cbn [fst snd] in H.
    unfold gst_ghost_pad_set_target in H.
    destruct (ghost_pad_link_ok w el); cbn [fst snd] in H;
      injection H as <- <-; reflexivity.
  - rewrite (select_without_errors w _ st Ec Ee) in H. cbn [fst snd] in H.
    unfold gst_ghost_pad_set_target in H.
    destruct (ghost_pad_link_ok w (fallback w)); cbn [fst snd] in H;
      injection H as <- <-; reflexivity.
  - unfold select in H. rewrite Ec, Ee in H. cbn [fst snd] in H.
    injection H as <- <-. reflexivity.
Qed.

(** C1 (amended). Construction and the READY_TO_NULL transition leave the
    placeholder "tempsrc" as kid, and the ghost pad targets it when the
    link to it succeeded (its result is not looked at there).  A detection
    that succeeds leaves the ghost pad targeting the kid, and the
    NULL_TO_READY transition then returns what the parent class returns.
    A detection that fails makes the transition fail without the parent
    class being called, and leaves no placeholder bound with a target: on
    the no_src exit (nothing chosen, errors recorded) the old kid has been
    removed and there is no kid; on the target_failed exit (the ghost pad
    does not link to the chosen element, a candidate or the fallback
    fakesrc) that element is the kid and the ghost pad has no target. *)
Theorem endpoint_after_lifecycle (w : World) :
  (forall obj_name,
     kid (gst_auto_video_src_init w obj_name) = Some tempsrc
     /\ (ghost_pad_link_ok w tempsrc = true ->
         targets_kid (gst_auto_video_src_init w obj_name)))
  /\ (forall src,
        gst_auto_video_src_change_state w src GST_STATE_CHANGE_READY_TO_NULL
        = Ok (parent_change_state w GST_STATE_CHANGE_READY_TO_NULL,
              gst_auto_video_src_reset w src)
        /\ kid (gst_auto_video_src_reset w src) = Some tempsrc
        /\ (ghost_pad_link_ok w tempsrc = true ->
            targets_kid (gst_auto_video_src_reset w src)))
  /\ (forall src ok s',
        gst_auto_video_src_detect w src = Ok (ok, s') ->
        gst_auto_video_src_change_state w src GST_STATE_CHANGE_NULL_TO_READY
        = Ok (if ok then parent_change_state w GST_STATE_CHANGE_NULL_TO_READY
              else GST_STATE_CHANGE_FAILURE, s')
        /\ (ok = true -> targets_kid s')
        /\ (ok = false ->
            kid s' = None
            \/ exists k, kid s' = Some k /\ pad_target s' = None
                         /\ ghost_pad_link_ok w k = false)
        /\ exists st, probe w src = Ok st
             /\ match choice st, errors st with
                | None, first :: _ =>
                    ok = false /\ kid s' = None
                    /\ posted s' = (posted src ++ [first; no_src src])%list
                | Some el, _ =>
                    ok = ghost_pad_link_ok w el /\ kid s' = Some el
                    /\ pad_target s'
                       = (if ghost_pad_link_ok w el then Some el else None)
                    /\ posted s'
                       = (posted src ++ if ghost_pad_link_ok w el then []
                                        else [target_failed src])%list
                | None, [] =>
                    ok = ghost_pad_link_ok w (fallback w)
                    /\ kid s' = Some (fallback w)
                    /\ pad_target s'
                       = (if ghost_pad_link_ok w (fallback w)
                          then Some (fallback w) else None)
                    /\ posted s'
                       = (posted src ++ not_found src
                            :: if ghost_pad_link_ok w (fallback w) then []
                               else [target_failed src])%list
                end).
Proof.
  split; [|split].
  - intros obj_name.
    destruct (reset_targets w (mkSrc obj_name None [] None None [])) as (Hk & Ht).
    unfold gst_auto_video_src_init, targets_kid, set_filter_caps.
    cbn [kid pad_target]. split; [exact Hk|]. intros Hl. exists tempsrc.
    rewrite Hl in Ht. auto.
  - intros src. destruct (reset_targets w src) as (Hk & Ht).
    split; [reflexivity|]. split; [exact Hk|]. intros Hl. exists tempsrc.
    rewrite Hl in Ht. auto.
  - intros src ok s' Hd. split; [|split; [|split]].
    + unfold gst_auto_video_src_change_state. rewrite Hd. cbn [bind fst snd].
      destruct ok; reflexivity.
    + destruct (detect_cases w src ok s' Hd) as [[_ H]|[[-> H]|[-> H]]];
        intros; try discriminate; auto.
    + destruct (detect_cases w src ok s' Hd) as [[-> H]|[[_ H]|[_ H]]];
        intros; try discriminate; auto.
    + destruct (detect_paths w src ok s' Hd) as (_ & _ & st & Hp & Hc).
      destruct (detect_paths_target w src ok s' Hd) as (st0 & Hp0 & Ht).
      rewrite Hp in Hp0. injection Hp0 as <-.
      exists st. split; [exact Hp|].
      destruct (choice st) as [el|]; [|destruct (errors st) as [|first rest]];
        destruct Hc as (Hok & Hk & _ & Hpo); auto.
Qed.

Lemma endpoint_after_lifecycle_witness :
  let w := Sample.only_drvA in
  (ghost_pad_link_ok w tempsrc = true
   /\ targets_kid (gst_auto_video_src_init w "autovideosrc0"))
  /\ exists s',
       gst_auto_video_src_detect w (Sample.facade w) = Ok (false, s')
       /\ gst_auto_video_src_change_state w (Sample.facade w)
            GST_STATE_CHANGE_NULL_TO_READY = Ok (GST_STATE_CHANGE_FAILURE, s')
       /\ (false = false ->
           kid s' = None
           \/ exists k, kid s' = Some k /\ pad_target s' = None
                        /\ ghost_pad_link_ok w k = false).
Proof.
  intros w. split.
  - split; [reflexivity|].
    apply (proj1 (endpoint_after_lifecycle w) "autovideosrc0"). reflexivity.
  - eexists. split; [vm_compute; reflexivity|].
    pose proof (proj2 (proj2 (endpoint_after_lifecycle w)) (Sample.facade w)
                  false _ eq_refl) as (H1 & _ & H3 & _).
    split; [exact H1 | exact H3].
Defined.

(** A detection that succeeds does not make the transition succeed: the
    parent class has the last word. *)
Example parent_failure_after_detection :
  let w := with_parent Sample.two_drivers (fun _ => GST_STATE_CHANGE_FAILURE) in
  exists s',
    gst_auto_video_src_detect w (Sample.facade w) = Ok (true, s')
    /\ gst_auto_video_src_change_state w (Sample.facade w)
         GST_STATE_CHANGE_NULL_TO_READY = Ok (GST_STATE_CHANGE_FAILURE, s')
    /\ targets_kid s'.
Proof.
  cbv zeta. eexists. split; [vm_compute; reflexivity|].
  split; [vm_compute; reflexivity|]. eexists. split; reflexivity.
Qed.
